(** * build/generate-future-functions.py: the generator script, embedded

    The script binds the value-kind registry ([typedef_list], [type_list])
    and the operation descriptors ([future_functions]) as module globals,
    checks every parameter kind against the registry, and then renders six
    templates into the mock-server directory.

    The module-level statements are embedded as computations of a small
    state-and-exception monad over the script's globals and the outside
    world (standard output and the file system). *)

From Stdlib Require Import Ascii String.
From stdpp Require Import base strings gmap list.

Local Open Scope string_scope.

(** ** Data model (lines 44 and 71-72): the three namedtuples *)

Module typedef.
Record t := mk { name : string; typedef : option string }.
End typedef.

Module param.
Record t := mk { type_name : string; name : string }.
End param.

Module future_function.
Record t := mk { ret_type : string; name : string; params : list param.t }.
End future_function.

(** ** Python strings: [in], [repr] and [%]-formatting *)

(** [x in l] on a list of strings: a left-to-right scan with [==]. *)
Definition py_in (x : string) (l : list string) : bool :=
  existsb (String.eqb x) l.

Definition dquote : ascii := "034"%char.
Definition squote : ascii := "'"%char.
Definition backslash : ascii := "\"%char.
Definition newline : ascii := "010"%char.

Definition str1 (c : ascii) : string := String c EmptyString.

Fixpoint has_char (c : ascii) (s : string) : bool :=
  match s with
  | EmptyString => false
  | String d s' => Ascii.eqb d c || has_char c s'
  end.

Definition hexdigit (n : nat) : ascii :=
  match String.get n "0123456789abcdef" with
  | Some c => c
  | None => "0"%char
  end.

(** One character of [repr(s)] for a byte string (the [str] of Python 2,
    which the script is written for), given the chosen quote. On ASCII text
    the [repr] of Python 3 is the same. *)
Definition repr_char (quote c : ascii) : string :=
  if Ascii.eqb c quote || Ascii.eqb c backslash then String backslash (str1 c)
  else if Ascii.eqb c "009"%char then "\t"
  else if Ascii.eqb c newline then "\n"
  else if Ascii.eqb c "013"%char then "\r"
  else
    let n := nat_of_ascii c in
    if Nat.ltb n 32 || Nat.leb 127 n
    then "\x" +:+ String (hexdigit (n / 16)) (str1 (hexdigit (n mod 16)))
    else str1 c.

Fixpoint repr_chars (quote : ascii) (s : string) : string :=
  match s with
  | EmptyString => EmptyString
  | String c s' => repr_char quote c +:+ repr_chars quote s'
  end.

(** [repr(s)]: single quotes, unless [s] has a single quote and no double
    quote. *)
Definition repr_quote (s : string) : ascii :=
  if has_char squote s && negb (has_char dquote s) then dquote else squote.

Definition repr_str (s : string) : string :=
  let q := repr_quote s in
  String q (repr_chars q s +:+ str1 q).

(** [', '.join(l)] *)
Fixpoint join_comma (l : list string) : string :=
  match l with
  | [] => ""
  | [x] => x
  | x :: l' => x +:+ ", " +:+ join_comma l'
  end.

(** [repr] of a list: the [repr] of every element between brackets. *)
Definition repr_list {A} (r : A -> string) (l : list A) : string :=
  "[" +:+ join_comma (map r l) +:+ "]".

(** [repr] of the namedtuples: ['param(type_name=%r, name=%r)'] and
    ['future_function(ret_type=%r, name=%r, params=%r)']. *)
Definition repr_param (p : param.t) : string :=
  "param(type_name=" +:+ repr_str (param.type_name p) +:+
  ", name=" +:+ repr_str (param.name p) +:+ ")".

Definition repr_future_function (fn : future_function.t) : string :=
  "future_function(ret_type=" +:+ repr_str (future_function.ret_type fn) +:+
  ", name=" +:+ repr_str (future_function.name fn) +:+
  ", params=" +:+ repr_list repr_param (future_function.params fn) +:+ ")".

(** Line 114: ['bad type "%s"\n\nin %s' % (p.type_name, fn)]. [%s] of a
    string is the string itself; [%s] of the namedtuple is its [repr]. *)
Definition bad_type_message (p : param.t) (fn : future_function.t) : string :=
  "bad type " +:+ str1 dquote +:+ param.type_name p +:+ str1 dquote +:+
  str1 newline +:+ str1 newline +:+ "in " +:+ repr_future_function fn.

(** [os.path.join] (posixpath) on two components. *)
Definition starts_with_slash (s : string) : bool :=
  match s with
  | String c _ => Ascii.eqb c "/"%char
  | EmptyString => false
  end.

Fixpoint ends_with_slash (s : string) : bool :=
  match s with
  | EmptyString => false
  | String c EmptyString => Ascii.eqb c "/"%char
  | String _ s' => ends_with_slash s'
  end.

Definition joinpath (a b : string) : string :=
  if starts_with_slash b then b
  else if String.eqb a "" || ends_with_slash a then a +:+ b
  else a +:+ "/" +:+ b.

(** ** The script's globals and the world it acts on *)

Module globals.
(** Names bound by the module-level statements. A name not yet bound is
    [None]. [f] holds the path of the file object bound by [with]. The
    namedtuple classes and the imported names are left out, and so is the
    comprehension variable [T] of line 69, which only Python 2 keeps bound. *)
Record t := mk {
  this_dir : string;
  template_dir : string;
  mock_server_dir : string;
  typedef_list : list typedef.t;
  type_list : list string;
  future_functions : list future_function.t;
  fn : option future_function.t;
  p : option param.t;
  header_comment : option string;
  files : option (list string);
  file_name : option string;
  template : option string;
  f : option string
}.
End globals.

Definition bind_fn (v : option future_function.t) (g : globals.t) : globals.t :=
  globals.mk (globals.this_dir g) (globals.template_dir g)
    (globals.mock_server_dir g) (globals.typedef_list g) (globals.type_list g)
    (globals.future_functions g) v (globals.p g) (globals.header_comment g)
    (globals.files g) (globals.file_name g) (globals.template g) (globals.f g).

Definition bind_p (v : option param.t) (g : globals.t) : globals.t :=
  globals.mk (globals.this_dir g) (globals.template_dir g)
    (globals.mock_server_dir g) (globals.typedef_list g) (globals.type_list g)
    (globals.future_functions g) (globals.fn g) v (globals.header_comment g)
    (globals.files g) (globals.file_name g) (globals.template g) (globals.f g).

Definition bind_header_comment (v : string) (g : globals.t) : globals.t :=
  globals.mk (globals.this_dir g) (globals.template_dir g)
    (globals.mock_server_dir g) (globals.typedef_list g) (globals.type_list g)
    (globals.future_functions g) (globals.fn g) (globals.p g) (Some v)
    (globals.files g) (globals.file_name g) (globals.template g) (globals.f g).

Definition bind_files (v : list string) (g : globals.t) : globals.t :=
  globals.mk (globals.this_dir g) (globals.template_dir g)
    (globals.mock_server_dir g) (globals.typedef_list g) (globals.type_list g)
    (globals.future_functions g) (globals.fn g) (globals.p g)
    (globals.header_comment g) (Some v) (globals.file_name g)
    (globals.template g) (globals.f g).

Definition bind_file_name (v : string) (g : globals.t) : globals.t :=
  globals.mk (globals.this_dir g) (globals.template_dir g)
    (globals.mock_server_dir g) (globals.typedef_list g) (globals.type_list g)
    (globals.future_functions g) (globals.fn g) (globals.p g)
    (globals.header_comment g) (globals.files g) (Some v)
    (globals.template g) (globals.f g).

Definition bind_template (v : string) (g : globals.t) : globals.t :=
  globals.mk (globals.this_dir g) (globals.template_dir g)
    (globals.mock_server_dir g) (globals.typedef_list g) (globals.type_list g)
    (globals.future_functions g) (globals.fn g) (globals.p g)
    (globals.header_comment g) (globals.files g) (globals.file_name g)
    (Some v) (globals.f g).

Definition bind_f (v : string) (g : globals.t) : globals.t :=
  globals.mk (globals.this_dir g) (globals.template_dir g)
    (globals.mock_server_dir g) (globals.typedef_list g) (globals.type_list g)
    (globals.future_functions g) (globals.fn g) (globals.p g)
    (globals.header_comment g) (globals.files g) (globals.file_name g)
    (globals.template g) (Some v).

(** Standard output, line by line, the files by path, and the paths that
    the host lets the script open for writing: those whose directory exists
    and whose permissions allow it. The script makes no directory and
    changes no permission, so [writable] is the same throughout a run. *)
Record world := World {
  stdout : list string;
  fs : gmap string string;
  writable : string -> bool
}.

Record machine := Machine {
  m_globals : globals.t;
  m_world : world
}.

(** ** The monad: state plus exceptions *)

Inductive exn :=
| Exception (msg : string)
| IOError (path : string)
| TemplateError.

Inductive result (A : Type) :=
| Return (a : A)
| Raise (e : exn).
Arguments Return {A} a.
Arguments Raise {A} e.

Definition M (A : Type) : Type := machine -> result A * machine.

Definition ret {A} (a : A) : M A := fun m => (Return a, m).

Definition raise {A} (e : exn) : M A := fun m => (Raise e, m).

Definition bind {A B} (c : M A) (k : A -> M B) : M B :=
  fun m =>
    match c m with
    | (Return a, m') => k a m'
    | (Raise e, m') => (Raise e, m')
    end.

Notation "x <- c ;; k" := (bind c (fun x => k))
  (at level 100, c at next level, k at level 200, right associativity).
Notation "c ;; k" := (bind c (fun _ => k))
  (at level 100, k at level 200, right associativity).

Definition get_globals : M globals.t := fun m => (Return (m_globals m), m).

Definition assign (upd : globals.t -> globals.t) : M unit :=
  fun m => (Return tt, Machine (upd (m_globals m)) (m_world m)).

Definition act (upd : world -> world) : M unit :=
  fun m => (Return tt, Machine (m_globals m) (upd (m_world m))).

(** [for x in xs: body], the loop variable bound by [body] itself. *)
Fixpoint for_each {A} (xs : list A) (body : A -> M unit) : M unit :=
  match xs with
  | [] => ret tt
  | x :: xs' => body x ;; for_each xs' body
  end.

(** ** Lines 111-114: the validation loop *)

Definition check_param (fn : future_function.t) (p : param.t) : M unit :=
  assign (bind_p (Some p)) ;;
  g <- get_globals ;;
  if negb (py_in (param.type_name p) (globals.type_list g))
  then raise (Exception (bad_type_message p fn))
  else ret tt.

Definition check_function (fn : future_function.t) : M unit :=
  assign (bind_fn (Some fn)) ;;
  for_each (future_function.params fn) (check_param fn).

Definition validation : M unit :=
  g <- get_globals ;;
  for_each (globals.future_functions g) check_function.

(** ** Lines 117-138: header comment, file list and the emission loop *)

Definition nl : string := str1 newline.

(** [print(s)] *)
Definition print (s : string) : M unit :=
  act (fun w => World (stdout w ++ [s])%list (fs w) (writable w)).

(** [open(path).read()]: a missing file raises [IOError]. *)
Definition read_file (path : string) : M string :=
  fun m =>
    match fs (m_world m) !! path with
    | Some text => (Return text, m)
    | None => (Raise (IOError path), m)
    end.

(** [open(path, 'w+')]: the file is created, or truncated if it exists;
    where the host does not let the path be opened for writing, [IOError]
    is raised and nothing changes. *)
Definition open_w (path : string) : M unit :=
  fun m =>
    if writable (m_world m) path
    then act (fun w => World (stdout w) (<[path := ""]> (fs w)) (writable w)) m
    else (Raise (IOError path), m).

(** [f.write(text)] on the file opened at [path]. *)
Definition write (path text : string) : M unit :=
  act (fun w =>
         World (stdout w)
               (<[path := default "" (fs w !! path) +:+ text]> (fs w))
               (writable w)).

(** Lines 126-131. *)
Definition files : list string :=
  ["future.h"; "future.c"; "future-value.h"; "future-value.c";
   "future-functions.h"; "future-functions.c"].

Section Host.

(** What the script takes from its host: its own path [__file__], the
    [os.path] functions, and Jinja's [Template(text).render(globals())],
    which yields the rendered text or raises. *)
Variable file__ : string.
Variables dirname basename normpath : string -> string.
Variable render : string -> globals.t -> option string.

(** Lines 38-108: the globals bound before the validation loop, for the
    registry literal [tl] and the operation list literal [fns]. *)
Definition module_bindings (tl : list typedef.t)
    (fns : list future_function.t) : globals.t :=
  let this_dir := dirname file__ in
  {| globals.this_dir := this_dir;
     globals.template_dir := joinpath this_dir "future_function_templates";
     globals.mock_server_dir :=
       normpath (joinpath this_dir "../tests/mock_server");
     globals.typedef_list := tl;
     globals.type_list := map typedef.name tl;
     globals.future_functions := fns;
     globals.fn := None;
     globals.p := None;
     globals.header_comment := None;
     globals.files := None;
     globals.file_name := None;
     globals.template := None;
     globals.f := None |}.

(** Lines 117-123. *)
Definition header_comment : string :=
  "/**************************************************" +:+ nl +:+
  " *" +:+ nl +:+
  " * Generated by build/" +:+ basename file__ +:+ "." +:+ nl +:+
  " *" +:+ nl +:+
  " * DO NOT EDIT THIS FILE." +:+ nl +:+
  " *" +:+ nl +:+
  " *************************************************/".

(** Lines 135-138: the body of the emission loop. *)
Definition emit_file (file_name : string) : M unit :=
  assign (bind_file_name file_name) ;;
  print file_name ;;
  g <- get_globals ;;
  template <-
    read_file (joinpath (globals.template_dir g) (file_name +:+ ".template")) ;;
  assign (bind_template template) ;;
  let out := joinpath (globals.mock_server_dir g) file_name in
  open_w out ;;
  assign (bind_f out) ;;
  g' <- get_globals ;;
  match render template g' with
  | Some text => write out text
  | None => raise TemplateError
  end.

Definition emission : M unit :=
  assign (bind_files files) ;;
  for_each files emit_file.

(** Lines 111-138, in order. *)
Definition script : M unit :=
  validation ;;
  assign (bind_header_comment header_comment) ;;
  emission.

(** A run of the whole file in the world [w]. *)
Definition main (tl : list typedef.t) (fns : list future_function.t)
    (w : world) : result unit * machine :=
  script (Machine (module_bindings tl fns) w).

(** The machine on reaching line 111, and the validation loop run there. *)
Definition boot (tl : list typedef.t) (fns : list future_function.t)
    (w : world) : machine :=
  Machine (module_bindings tl fns) w.

Definition validate (tl : list typedef.t) (fns : list future_function.t)
    (w : world) : result unit * machine :=
  validation (boot tl fns w).

End Host.

(** The interpreter's exit status: an uncaught exception gives 1. *)
Definition exit_status (r : result unit) : nat :=
  match r with
  | Return _ => 0
  | Raise _ => 1
  end.

(** ** Lines 49-67 and 78-108: the lists as the file has them *)

Definition typedef_list : list typedef.t :=
  [ typedef.mk "bool" None;
    typedef.mk "bson_error_ptr" (Some "bson_error_t *");
    typedef.mk "bson_ptr" (Some "bson_t *");
    typedef.mk "char_ptr" (Some "char *");
    typedef.mk "char_ptr_ptr" (Some "char **");
    typedef.mk "const_char_ptr" (Some "const char *");
    typedef.mk "const_bson_ptr" (Some "const bson_t *");
    typedef.mk "const_bson_ptr_ptr" (Some "const bson_t **");
    typedef.mk "const_mongoc_read_prefs_ptr" (Some "const mongoc_read_prefs_t *");
    typedef.mk "mongoc_bulk_operation_ptr" (Some "mongoc_bulk_operation_t *");
    typedef.mk "mongoc_client_ptr" (Some "mongoc_client_t *");
    typedef.mk "mongoc_cursor_ptr" (Some "mongoc_cursor_t *");
    typedef.mk "mongoc_database_ptr" (Some "mongoc_database_t *");
    typedef.mk "mongoc_query_flags_t" None;
    typedef.mk "uint32_t" None ].

Definition type_list : list string := map typedef.name typedef_list.

Definition future_functions : list future_function.t :=
  [ future_function.mk "uint32_t" "bulk_operation_execute"
      [ param.mk "mongoc_bulk_operation_ptr" "bulk";
        param.mk "bson_ptr" "reply";
        param.mk "bson_error_ptr" "error" ];
    future_function.mk "bool" "client_command_simple"
      [ param.mk "mongoc_client_ptr" "client";
        param.mk "const_char_ptr" "db_name";
        param.mk "const_bson_ptr" "command";
        param.mk "const_mongoc_read_prefs_ptr" "read_prefs";
        param.mk "bson_ptr" "reply";
        param.mk "bson_error_ptr" "error" ];
    future_function.mk "bool" "cursor_next"
      [ param.mk "mongoc_cursor_ptr" "cursor";
        param.mk "const_bson_ptr_ptr" "doc" ];
    future_function.mk "char_ptr_ptr" "client_get_database_names"
      [ param.mk "mongoc_client_ptr" "client";
        param.mk "bson_error_ptr" "error" ];
    future_function.mk "char_ptr_ptr" "database_get_collection_names"
      [ param.mk "mongoc_database_ptr" "database";
        param.mk "bson_error_ptr" "error" ] ].


(** ** The validation loop read as a search *)

Definition unregistered (names : list string) (p : param.t) : bool :=
  negb (py_in (param.type_name p) names).

(** The first parameter, with its operation, that the loops of lines 111-113
    reach and find outside [names]. *)
Fixpoint first_bad (names : list string) (fns : list future_function.t)
    : option (future_function.t * param.t) :=
  match fns with
  | [] => None
  | fn :: rest =>
      match find (unregistered names) (future_function.params fn) with
      | Some p => Some (fn, p)
      | None => first_bad names rest
      end
  end.

(** The order in which the two loops visit the parameters. *)
Definition scan (fns : list future_function.t)
    : list (future_function.t * param.t) :=
  flat_map (fun fn => map (pair fn) (future_function.params fn)) fns.

(** [m'] differs from [m] at most in the loop variables [fn] and [p]. *)
Definition frame (m m' : machine) : Prop :=
  m_world m' = m_world m /\
  bind_p None (bind_fn None (m_globals m')) =
  bind_p None (bind_fn None (m_globals m)).

(** [x] is a substring of [s]. *)
Definition occurs_in (x s : string) : Prop :=
  exists a b, s = a +:+ x +:+ b.

(** Printable ASCII other than the single quote and the backslash: the
    characters [repr] copies unchanged between single quotes. *)
Definition plain_char (c : ascii) : bool :=
  let n := nat_of_ascii c in
  Nat.leb 32 n && Nat.ltb n 127 &&
  negb (Ascii.eqb c squote) && negb (Ascii.eqb c backslash).

Fixpoint plain (s : string) : bool :=
  match s with
  | EmptyString => true
  | String c s' => plain_char c && plain s'
  end.

(** ** A sample host: the script run from the repository root *)

Definition sample_file : string := "build/generate-future-functions.py".
Definition sample_dirname (_ : string) : string := "build".
Definition sample_basename (_ : string) : string := "generate-future-functions.py".
Definition sample_normpath (_ : string) : string := "tests/mock_server".
Definition sample_render (text : string) (_ : globals.t) : option string :=
  Some text.

Definition sample_world : world :=
  World []
    (list_to_map
       (map (fun file_name =>
               ("build/future_function_templates/" +:+ file_name +:+ ".template",
                "/* " +:+ file_name +:+ " */"))
            files))
    (String.prefix "tests/mock_server/").

(** The same templates in a tree that has no [tests/mock_server]
    directory: no path can be opened for writing. *)
Definition sample_world_without_output_dir : world :=
  World [] (fs sample_world) (fun _ => false).

Definition sample_main :=
  main sample_file sample_dirname sample_basename sample_normpath sample_render.

Definition sample_validate :=
  validate sample_file sample_dirname sample_normpath.

(** The scenario of an operation whose parameter kind is not registered. *)
Definition ping_frobnicator : future_function.t :=
  future_function.mk "bool" "ping" [param.mk "frobnicator_ptr" "msg"].

(** An operation whose return kind alone is not registered. *)
Definition frobnicate_ping : future_function.t :=
  future_function.mk "frobnicator_ptr" "ping" [param.mk "const_char_ptr" "msg"].

(** Printable ASCII, and strings made of characters that satisfy a test. *)
Definition printable (c : ascii) : bool :=
  let n := nat_of_ascii c in Nat.leb 32 n && Nat.ltb n 127.

Fixpoint all_chars (P : ascii -> bool) (s : string) : bool :=
  match s with
  | EmptyString => true
  | String c s' => P c && all_chars P s'
  end.

(** Reading back the first character that [repr_char] wrote at the head of
    a string: an escape, or the character itself. *)
Definition hexval (c : ascii) : nat :=
  let n := nat_of_ascii c in
  if Nat.leb 97 n then Nat.sub n 87 else Nat.sub n 48.

Definition unrepr_char (s : string) : option (ascii * string) :=
  match s with
  | EmptyString => None
  | String c s1 =>
      if Ascii.eqb c backslash then
        match s1 with
        | EmptyString => None
        | String d s2 =>
            if Ascii.eqb d "x"%char then
              match s2 with
              | String h (String l s4) =>
                  Some (ascii_of_nat (Nat.add (Nat.mul 16 (hexval h)) (hexval l)), s4)
              | _ => None
              end
            else if Ascii.eqb d "t"%char then Some ("009"%char, s2)
            else if Ascii.eqb d "n"%char then Some (newline, s2)
            else if Ascii.eqb d "r"%char then Some ("013"%char, s2)
            else Some (d, s2)
        end
      else Some (c, s1)
  end.

(** The paths of one round of the emission loop, and the globals that
    [render] receives in that round: the round rebinds [file_name],
    [template] and [f], whatever earlier rounds left there. *)
Definition template_path (g : globals.t) (file_name : string) : string :=
  joinpath (globals.template_dir g) (file_name +:+ ".template").

Definition output_path (g : globals.t) (file_name : string) : string :=
  joinpath (globals.mock_server_dir g) file_name.

Definition rendering_globals (g : globals.t) (file_name template : string)
    : globals.t :=
  bind_f (output_path g file_name)
    (bind_template template (bind_file_name file_name g)).

(** [g'] differs from [g] at most in [file_name], [template] and [f]. *)
Definition same_base (g g' : globals.t) : Prop :=
  rendering_globals g' "" "" = rendering_globals g "" "".

(** What the emission loop leaves alone in the globals: it binds only
    [file_name], [template] and [f]. *)
Definition kept (g g' : globals.t) : Prop :=
  globals.typedef_list g' = globals.typedef_list g /\
  globals.type_list g' = globals.type_list g /\
  globals.future_functions g' = globals.future_functions g /\
  globals.fn g' = globals.fn g /\
  globals.p g' = globals.p g /\
  globals.header_comment g' = globals.header_comment g /\
  globals.files g' = globals.files g.

(** ** Basic facts *)

Lemma py_in_In (x : string) (l : list string) :
  py_in x l = true <-> In x l.
Proof.
  unfold py_in. rewrite existsb_exists. split.
  - intros [y [Hy E]]. apply String.eqb_eq in E. now subst.
  - intros H. exists x. split; [exact H | apply String.eqb_refl].
Qed.

Lemma unregistered_spec (names : list string) (p : param.t) :
  unregistered names p = true <-> ~ In (param.type_name p) names.
Proof.
  unfold unregistered. rewrite negb_true_iff, <- not_true_iff_false.
  now rewrite py_in_In.
Qed.

Lemma unregistered_false (names : list string) (p : param.t) :
  unregistered names p = false <-> In (param.type_name p) names.
Proof.
  unfold unregistered. rewrite negb_false_iff. apply py_in_In.
Qed.

Lemma bind_p_bind_p v v' g : bind_p v (bind_p v' g) = bind_p v g.
Proof. reflexivity. Qed.

Lemma bind_fn_bind_p v v' g : bind_fn v (bind_p v' g) = bind_p v' (bind_fn v g).
Proof. reflexivity. Qed.

Lemma bind_fn_bind_fn v v' g : bind_fn v (bind_fn v' g) = bind_fn v g.
Proof. reflexivity. Qed.

Lemma frame_refl m : frame m m.
Proof. split; reflexivity. Qed.

Lemma frame_trans m1 m2 m3 : frame m1 m2 -> frame m2 m3 -> frame m1 m3.
Proof.
  intros [W1 G1] [W2 G2]. split; [now rewrite W2 | now rewrite G2].
Qed.

Lemma frame_bind_p v g w : frame (Machine g w) (Machine (bind_p v g) w).
Proof. split; reflexivity. Qed.

Lemma frame_bind_fn v g w : frame (Machine g w) (Machine (bind_fn v g) w).
Proof. split; reflexivity. Qed.

(** What the frame keeps: every global but the two loop variables. *)
Lemma frame_globals m m' :
  frame m m' ->
  globals.typedef_list (m_globals m') = globals.typedef_list (m_globals m) /\
  globals.type_list (m_globals m') = globals.type_list (m_globals m) /\
  globals.future_functions (m_globals m') =
    globals.future_functions (m_globals m) /\
  globals.files (m_globals m') = globals.files (m_globals m) /\
  globals.header_comment (m_globals m') = globals.header_comment (m_globals m).
Proof.
  intros [_ G].
  destruct m as [g w], m' as [g' w']; simpl in *.
  destruct g, g'; simpl in *. unfold bind_p, bind_fn in G; simpl in G.
  inversion G; subst. repeat split; reflexivity.
Qed.

(** ** The inner loop, lines 112-114 *)

Lemma for_each_cons {A} (x : A) (xs : list A) (body : A -> M unit) (m : machine) :
  for_each (x :: xs) body m =
  match body x m with
  | (Return _, m') => for_each xs body m'
  | (Raise e, m') => (Raise e, m')
  end.
Proof. reflexivity. Qed.

Lemma check_param_step (fn : future_function.t) (q : param.t) g w :
  check_param fn q (Machine g w) =
  if unregistered (globals.type_list g) q
  then (Raise (Exception (bad_type_message q fn)), Machine (bind_p (Some q) g) w)
  else (Return tt, Machine (bind_p (Some q) g) w).
Proof.
  unfold check_param, bind, assign, get_globals, unregistered; simpl.
  destruct (py_in (param.type_name q) (globals.type_list g)); reflexivity.
Qed.

Lemma check_params_run (fn : future_function.t) (ps : list param.t) (m : machine) :
  match find (unregistered (globals.type_list (m_globals m))) ps with
  | Some p =>
      exists m', for_each ps (check_param fn) m =
                   (Raise (Exception (bad_type_message p fn)), m') /\
                 frame m m' /\
                 globals.p (m_globals m') = Some p /\
                 globals.fn (m_globals m') = globals.fn (m_globals m)
  | None =>
      exists m', for_each ps (check_param fn) m = (Return tt, m') /\ frame m m'
  end.
Proof.
  revert m. induction ps as [|q ps IH]; intros [g w].
  - simpl. eexists. split; [reflexivity | apply frame_refl].
  - rewrite for_each_cons, check_param_step. simpl.
    destruct (unregistered (globals.type_list g) q) eqn:E.
    + eexists. split; [reflexivity|]. split; [apply frame_bind_p|].
      split; reflexivity.
    + specialize (IH (Machine (bind_p (Some q) g) w)). simpl in IH.
      destruct (find (unregistered (globals.type_list g)) ps) as [p|].
      * destruct IH as (m' & R & F & P & Fn). exists m'.
        split; [exact R|]. split; [|split; [exact P | exact Fn]].
        eapply frame_trans; [apply frame_bind_p | exact F].
      * destruct IH as (m' & R & F). exists m'. split; [exact R|].
        eapply frame_trans; [apply frame_bind_p | exact F].
Qed.

(** ** The outer loop, lines 111-114 *)

Lemma check_function_step (fn : future_function.t) g w :
  check_function fn (Machine g w) =
  for_each (future_function.params fn) (check_param fn)
    (Machine (bind_fn (Some fn) g) w).
Proof. reflexivity. Qed.

Lemma check_functions_run (fns : list future_function.t) (m : machine) :
  match first_bad (globals.type_list (m_globals m)) fns with
  | Some (fn, p) =>
      exists m', for_each fns check_function m =
                   (Raise (Exception (bad_type_message p fn)), m') /\
                 frame m m' /\
                 globals.fn (m_globals m') = Some fn /\
                 globals.p (m_globals m') = Some p
  | None =>
      exists m', for_each fns check_function m = (Return tt, m') /\ frame m m'
  end.
Proof.
  revert m. induction fns as [|fn fns IH]; intros [g w].
  - simpl. eexists. split; [reflexivity | apply frame_refl].
  - rewrite for_each_cons, check_function_step. simpl.
    pose proof (check_params_run fn (future_function.params fn)
                  (Machine (bind_fn (Some fn) g) w)) as Inner.
    simpl in Inner.
    destruct (find (unregistered (globals.type_list g))
                (future_function.params fn)) as [p|].
    + destruct Inner as (m' & R & F & P & Fn). exists m'. rewrite R.
      split; [reflexivity|]. split; [|split; [exact Fn | exact P]].
      eapply frame_trans; [apply frame_bind_fn | exact F].
    + destruct Inner as (m1 & R & F). rewrite R.
      assert (F1 : frame (Machine g w) m1)
        by (eapply frame_trans; [apply frame_bind_fn | exact F]).
      specialize (IH m1).
      destruct (frame_globals _ _ F1) as (_ & TL & _). simpl in TL.
      rewrite TL in IH.
      destruct (first_bad (globals.type_list g) fns) as [[fn' p]|].
      * destruct IH as (m' & R' & F' & Fn & P). exists m'.
        split; [exact R'|]. split; [|split; assumption].
        eapply frame_trans; eassumption.
      * destruct IH as (m' & R' & F'). exists m'. split; [exact R'|].
        eapply frame_trans; eassumption.
Qed.

Lemma validation_run (m : machine) :
  match first_bad (globals.type_list (m_globals m))
          (globals.future_functions (m_globals m)) with
  | Some (fn, p) =>
      exists m', validation m =
                   (Raise (Exception (bad_type_message p fn)), m') /\
                 frame m m' /\
                 globals.fn (m_globals m') = Some fn /\
                 globals.p (m_globals m') = Some p
  | None =>
      exists m', validation m = (Return tt, m') /\ frame m m'
  end.
Proof.
  exact (check_functions_run (globals.future_functions (m_globals m)) m).
Qed.

(** The validation loop changes nothing but the loop variables. *)
Lemma validation_frame (m : machine) : frame m (snd (validation m)).
Proof.
  pose proof (validation_run m) as H.
  destruct (first_bad _ _) as [[fn p]|].
  - destruct H as (m' & R & F & _). now rewrite R.
  - destruct H as (m' & R & F). now rewrite R.
Qed.

(** ** The search *)

Lemma find_none_iff {A} (P : A -> bool) (l : list A) :
  find P l = None <-> forall x, In x l -> P x = false.
Proof.
  split.
  - apply find_none.
  - induction l as [|x l IH]; simpl; intros H; [reflexivity|].
    rewrite (H x (or_introl eq_refl)). apply IH. intros y Hy. apply H. now right.
Qed.

Lemma find_split {A} (P : A -> bool) (l : list A) (x : A) :
  find P l = Some x ->
  exists before after,
    l = (before ++ x :: after)%list /\ Forall (fun y => P y = false) before /\ P x = true.
Proof.
  induction l as [|y l IH]; simpl; [discriminate|].
  destruct (P y) eqn:E.
  - intros [= ->]. exists [], l. repeat split; [constructor | exact E].
  - intros H. destruct (IH H) as (b & a & -> & Fb & Px).
    exists (y :: b), a. repeat split; [constructor; assumption | exact Px].
Qed.

Lemma find_append {A} (P : A -> bool) (l1 l2 : list A) :
  find P (l1 ++ l2)%list =
  match find P l1 with
  | Some x => Some x
  | None => find P l2
  end.
Proof.
  induction l1 as [|y l1 IH]; simpl; [reflexivity|].
  destruct (P y); [reflexivity | exact IH].
Qed.

Lemma first_bad_scan (names : list string) (fns : list future_function.t) :
  first_bad names fns = find (fun x => unregistered names (snd x)) (scan fns).
Proof.
  induction fns as [|fn fns IH]; simpl; [reflexivity|].
  unfold scan in *. simpl. rewrite find_append.
  assert (H : forall ps,
             find (fun x : future_function.t * param.t => unregistered names (snd x))
                  (map (pair fn) ps) =
             option_map (pair fn) (find (unregistered names) ps)).
  { induction ps as [|q ps IHp]; simpl; [reflexivity|].
    destruct (unregistered names q); [reflexivity | exact IHp]. }
  rewrite H. destruct (find (unregistered names) (future_function.params fn));
    simpl; [reflexivity | exact IH].
Qed.

Lemma first_bad_None (names : list string) (fns : list future_function.t) :
  first_bad names fns = None <->
  forall fn p, In fn fns -> In p (future_function.params fn) ->
               In (param.type_name p) names.
Proof.
  induction fns as [|fn fns IH]; simpl.
  - split; [intros _ ? ? [] | reflexivity].
  - destruct (find (unregistered names) (future_function.params fn)) as [q|] eqn:E.
    + split; [discriminate|]. intros H. exfalso.
      apply find_some in E as [Hq Hu]. apply unregistered_spec in Hu.
      apply Hu, (H fn q); [now left | exact Hq].
    + rewrite IH. rewrite find_none_iff in E. split.
      * intros H f q [<-|Hf] Hq; [|now apply (H f q)].
        apply unregistered_false, E, Hq.
      * intros H f q Hf. apply H. now right.
Qed.

Lemma first_bad_Some (names : list string) (fns : list future_function.t)
    (fn : future_function.t) (p : param.t) :
  first_bad names fns = Some (fn, p) ->
  In fn fns /\ In p (future_function.params fn) /\
  ~ In (param.type_name p) names.
Proof.
  induction fns as [|f fns IH]; simpl; [discriminate|].
  destruct (find (unregistered names) (future_function.params f)) as [q|] eqn:E.
  - intros [= -> ->]. apply find_some in E as [Hq Hu].
    split; [now left|]. split; [exact Hq | now apply unregistered_spec].
  - intros H. destruct (IH H) as (Hf & Hp & Hn). split; [now right | now split].
Qed.

(** The result of the validation loop is the search's result. *)
Lemma validation_result (m : machine) :
  fst (validation m) =
  match first_bad (globals.type_list (m_globals m))
          (globals.future_functions (m_globals m)) with
  | Some (fn, p) => Raise (Exception (bad_type_message p fn))
  | None => Return tt
  end.
Proof.
  pose proof (validation_run m) as H.
  destruct (first_bad _ _) as [[fn p]|].
  - destruct H as (m' & R & _). now rewrite R.
  - destruct H as (m' & R & _). now rewrite R.
Qed.

(** The search sees the registry only through membership of names. *)
Lemma first_bad_ext (n1 n2 : list string) (fns : list future_function.t) :
  (forall x, In x n1 <-> In x n2) -> first_bad n1 fns = first_bad n2 fns.
Proof.
  intros H.
  assert (U : forall p, unregistered n1 p = unregistered n2 p).
  { intros p. destruct (unregistered n2 p) eqn:E.
    - apply unregistered_spec. apply unregistered_spec in E. now rewrite H.
    - apply unregistered_false. apply unregistered_false in E. now rewrite H. }
  induction fns as [|fn fns IH]; simpl; [reflexivity|].
  assert (F : forall ps, find (unregistered n1) ps = find (unregistered n2) ps).
  { induction ps as [|q ps IHp]; simpl; [reflexivity|]. now rewrite U, IHp. }
  now rewrite F, IH.
Qed.

(** ** Strings *)

Lemma append_cons (x : ascii) (a b : string) :
  String x a +:+ b = String x (a +:+ b).
Proof. reflexivity. Qed.

Lemma append_nil_r (a : string) : a +:+ "" = a.
Proof.
  induction a as [|x a IH]; [reflexivity|]. rewrite append_cons. f_equal. exact IH.
Qed.

Lemma append_assoc (a b c : string) : (a +:+ b) +:+ c = a +:+ (b +:+ c).
Proof.
  induction a as [|x a IH]; [reflexivity|]. rewrite !append_cons. f_equal. exact IH.
Qed.

Lemma occurs_in_append_r (x a s : string) : occurs_in x s -> occurs_in x (a +:+ s).
Proof.
  intros (u & v & ->). exists (a +:+ u), v. now rewrite append_assoc.
Qed.

Lemma occurs_in_append_l (x s b : string) : occurs_in x s -> occurs_in x (s +:+ b).
Proof.
  intros (u & v & ->). exists u, (v +:+ b). now rewrite !append_assoc.
Qed.

Lemma occurs_in_refl (x : string) : occurs_in x x.
Proof.
  exists "", "". now rewrite append_nil_r.
Qed.

Lemma occurs_in_trans (x y s : string) :
  occurs_in x y -> occurs_in y s -> occurs_in x s.
Proof.
  intros (u & v & ->) H. destruct H as (a & b & ->).
  exists (a +:+ u), (v +:+ b). now rewrite !append_assoc.
Qed.

(** The message shows the kind between double quotes. *)
Lemma message_shows_kind (p : param.t) (fn : future_function.t) :
  occurs_in (str1 dquote +:+ param.type_name p +:+ str1 dquote)
            (bad_type_message p fn).
Proof.
  unfold bad_type_message.
  exists "bad type ",
    (str1 newline +:+ str1 newline +:+ "in " +:+ repr_future_function fn).
  now rewrite !append_assoc.
Qed.

(** The message shows the [repr] of the operation, its name field included. *)
Lemma message_shows_operation (p : param.t) (fn : future_function.t) :
  occurs_in ("name=" +:+ repr_str (future_function.name fn))
            (bad_type_message p fn).
Proof.
  unfold bad_type_message, repr_future_function.
  exists ("bad type " +:+ str1 dquote +:+ param.type_name p +:+ str1 dquote +:+
          str1 newline +:+ str1 newline +:+ "in " +:+
          "future_function(ret_type=" +:+
          repr_str (future_function.ret_type fn) +:+ ", "),
    (", params=" +:+
     repr_list repr_param (future_function.params fn) +:+ ")").
  rewrite !append_assoc. reflexivity.
Qed.

Lemma plain_char_repr (c : ascii) :
  plain_char c = true -> repr_char squote c = str1 c.
Proof.
  destruct c as [[] [] [] [] [] [] [] []]; vm_compute; intros H;
    first [reflexivity | discriminate H].
Qed.

Lemma plain_no_squote (s : string) : plain s = true -> has_char squote s = false.
Proof.
  induction s as [|c s IH]; simpl; [reflexivity|].
  intros H. apply andb_prop in H as [Hc Hs]. rewrite (IH Hs), orb_false_r.
  unfold plain_char in Hc. apply andb_prop in Hc as [Hc _].
  apply andb_prop in Hc as [_ Hc]. now apply negb_true_iff in Hc.
Qed.

Lemma plain_repr_chars (s : string) : plain s = true -> repr_chars squote s = s.
Proof.
  induction s as [|c s IH]; simpl; [reflexivity|].
  intros H. apply andb_prop in H as [Hc Hs].
  now rewrite (plain_char_repr c Hc), (IH Hs).
Qed.

(** [repr] of a plain string is the string between single quotes. *)
Lemma repr_str_plain (s : string) :
  plain s = true -> repr_str s = str1 squote +:+ s +:+ str1 squote.
Proof.
  intros H. unfold repr_str, repr_quote.
  rewrite (plain_no_squote s H). simpl. now rewrite (plain_repr_chars s H).
Qed.

Lemma message_shows_plain_name (p : param.t) (fn : future_function.t) :
  plain (future_function.name fn) = true ->
  occurs_in (future_function.name fn) (bad_type_message p fn).
Proof.
  intros H. eapply occurs_in_trans; [|apply message_shows_operation].
  rewrite (repr_str_plain _ H).
  apply occurs_in_append_r. change (str1 squote +:+ ?x) with (String squote x).
  exists (str1 squote), (str1 squote). reflexivity.
Qed.

(** ** The emission loop, lines 134-138 *)

Section Run.

Variable file__ : string.
Variables dirname basename normpath : string -> string.
Variable render : string -> globals.t -> option string.

Lemma kept_refl (g : globals.t) : kept g g.
Proof. repeat split. Qed.

Lemma kept_trans (g1 g2 g3 : globals.t) : kept g1 g2 -> kept g2 g3 -> kept g1 g3.
Proof.
  unfold kept. intros (A1 & A2 & A3 & A4 & A5 & A6 & A7)
    (B1 & B2 & B3 & B4 & B5 & B6 & B7).
  repeat split; congruence.
Qed.

(** One round of the loop prints the file name once, whether or not it goes
    on to raise, and binds none of the kept globals. *)
Lemma emit_file_run (x : string) (m : machine) :
  stdout (m_world (snd (emit_file render x m))) =
    (stdout (m_world m) ++ [x])%list /\
  kept (m_globals m) (m_globals (snd (emit_file render x m))).
Proof.
  destruct m as [g w].
  unfold emit_file, bind, assign, print, act, get_globals, read_file,
    open_w, write, raise; simpl.
  destruct (fs w !! joinpath (globals.template_dir g) (x +:+ ".template"))
    as [t|]; simpl; [|split; [reflexivity | repeat split]].
  destruct (writable w (joinpath (globals.mock_server_dir g) x)); simpl;
    [|split; [reflexivity | repeat split]].
  destruct (render t _); simpl; split; first [reflexivity | repeat split].
Qed.

Lemma emit_files_run (xs : list string) (m : machine) :
  (exists out, stdout (m_world (snd (for_each xs (emit_file render) m))) =
                 (stdout (m_world m) ++ out)%list) /\
  kept (m_globals m) (m_globals (snd (for_each xs (emit_file render) m))).
Proof.
  revert m. induction xs as [|x xs IH]; intros m.
  - simpl. split; [exists []; now rewrite app_nil_r | apply kept_refl].
  - rewrite for_each_cons.
    destruct (emit_file_run x m) as [O K].
    destruct (emit_file render x m) as [[[]|e] m1]; simpl in O, K.
    + destruct (IH m1) as [[out O'] K']. split.
      * exists (x :: out). rewrite O', O, <- app_assoc. reflexivity.
      * eapply kept_trans; eassumption.
    + simpl. split; [exists [x]; exact O | exact K].
Qed.

(** Entering the emission loop prints the first file name. *)
Lemma emission_run (m : machine) :
  (exists rest, stdout (m_world (snd (emission render m))) =
                  (stdout (m_world m) ++ "future.h" :: rest)%list) /\
  globals.files (m_globals (snd (emission render m))) = Some files /\
  globals.typedef_list (m_globals (snd (emission render m))) =
    globals.typedef_list (m_globals m) /\
  globals.type_list (m_globals (snd (emission render m))) =
    globals.type_list (m_globals m) /\
  globals.future_functions (m_globals (snd (emission render m))) =
    globals.future_functions (m_globals m).
Proof.
  set (m0 := Machine (bind_files files (m_globals m)) (m_world m)).
  assert (E : emission render m =
              match emit_file render "future.h" m0 with
              | (Return _, m1) => for_each (tail files) (emit_file render) m1
              | (Raise e, m1) => (Raise e, m1)
              end) by reflexivity.
  rewrite E. clear E.
  destruct (emit_file_run "future.h" m0) as [O K].
  destruct (emit_file render "future.h" m0) as [[[]|e] m1]; simpl in O, K.
  - destruct (emit_files_run (tail files) m1) as [[out O'] K'].
    pose proof (kept_trans _ _ _ K K') as (A1 & A2 & A3 & _ & _ & _ & A7).
    split; [|repeat split; assumption].
    exists out. rewrite O', O, <- app_assoc. reflexivity.
  - simpl. destruct K as (A1 & A2 & A3 & _ & _ & _ & A7).
    split; [exists []; exact O | repeat split; assumption].
Qed.

(** ** The whole run *)

Lemma boot_type_list tl fns w :
  globals.type_list (m_globals (boot file__ dirname normpath tl fns w)) =
  map typedef.name tl.
Proof. reflexivity. Qed.

Lemma validate_result tl fns w :
  fst (validate file__ dirname normpath tl fns w) =
  match first_bad (map typedef.name tl) fns with
  | Some (fn, p) => Raise (Exception (bad_type_message p fn))
  | None => Return tt
  end.
Proof. unfold validate. now rewrite validation_result. Qed.

Lemma validate_frame tl fns w :
  frame (boot file__ dirname normpath tl fns w)
        (snd (validate file__ dirname normpath tl fns w)).
Proof. apply validation_frame. Qed.

(** [main] is the validation loop and then, only if it returned, the rest. *)
Lemma main_after_validate tl fns w :
  main file__ dirname basename normpath render tl fns w =
  match validate file__ dirname normpath tl fns w with
  | (Return _, m') =>
      (assign (bind_header_comment (header_comment file__ basename)) ;;
       emission render) m'
  | (Raise e, m') => (Raise e, m')
  end.
Proof. reflexivity. Qed.

Lemma main_raised tl fns w e :
  fst (validate file__ dirname normpath tl fns w) = Raise e ->
  main file__ dirname basename normpath render tl fns w =
  (Raise e, snd (validate file__ dirname normpath tl fns w)).
Proof.
  intros H. rewrite main_after_validate.
  destruct (validate file__ dirname normpath tl fns w) as [[[]|e'] m'];
    simpl in H; [discriminate | now inversion H].
Qed.

Lemma main_returned tl fns w :
  fst (validate file__ dirname normpath tl fns w) = Return tt ->
  main file__ dirname basename normpath render tl fns w =
  emission render
    (Machine (bind_header_comment (header_comment file__ basename)
                (m_globals (snd (validate file__ dirname normpath tl fns w))))
             (m_world (snd (validate file__ dirname normpath tl fns w)))).
Proof.
  intros H. rewrite main_after_validate.
  destruct (validate file__ dirname normpath tl fns w) as [[[]|e'] m'];
    simpl in H; [reflexivity | discriminate].
Qed.

End Run.

(** ** Properties of the validation pass and of the run *)

Section Claims.

Variable file__ : string.
Variables dirname basename normpath : string -> string.
Variable render : string -> globals.t -> option string.

Abbreviation run := (main file__ dirname basename normpath render).
Abbreviation check := (validate file__ dirname normpath).

(** C1, as the code has it: the validation loop tests the kind of every
    parameter of every operation for membership in [type_list], and nothing
    else. It returns normally exactly when every parameter kind is
    registered and raises exactly when some parameter kind is not; the
    return kind of an operation is never looked at. *)
Theorem validation_checks_parameter_kinds
    (tl : list typedef.t) (fns : list future_function.t) (w : world) :
  (fst (check tl fns w) = Return tt <->
   forall fn p, In fn fns -> In p (future_function.params fn) ->
                In (param.type_name p) (map typedef.name tl)) /\
  ((exists e, fst (check tl fns w) = Raise e) <->
   exists fn p, In fn fns /\ In p (future_function.params fn) /\
                ~ In (param.type_name p) (map typedef.name tl)).
Proof.
  rewrite validate_result.
  destruct (first_bad (map typedef.name tl) fns) as [[fn p]|] eqn:E.
  - apply first_bad_Some in E as (Hf & Hp & Hn). split; split.
    + discriminate.
    + intros H. exfalso. apply Hn. now apply (H fn p).
    + intros _. now exists fn, p.
    + intros _. eexists. reflexivity.
  - rewrite first_bad_None in E. split; split.
    + intros _. exact E.
    + reflexivity.
    + intros [e H]. discriminate.
    + intros (fn & p & Hf & Hp & Hn). exfalso. apply Hn. now apply (E fn p).
Qed.

(** C2: when the validation loop raises, the run ends with that exception
    and the world is as it was: nothing was printed, no file was created,
    truncated or written, and [files] was not even bound. *)
Theorem validation_failure_emits_nothing
    (tl : list typedef.t) (fns : list future_function.t) (w : world) (e : exn) :
  fst (check tl fns w) = Raise e ->
  fst (run tl fns w) = Raise e /\
  m_world (snd (run tl fns w)) = w /\
  globals.files (m_globals (snd (run tl fns w))) = None.
Proof.
  intros H. rewrite (main_raised _ _ _ _ render _ _ _ _ H). simpl.
  destruct (validate_frame file__ dirname normpath tl fns w) as [W G].
  split; [reflexivity|]. split; [exact W|].
  pose proof (frame_globals _ _ (conj W G)) as (_ & _ & _ & F & _).
  exact F.
Qed.

(** C3: whenever some parameter kind of some operation is not registered,
    the run ends with exit status 1 on an [Exception] whose message is
    built from an unregistered parameter kind and the operation it belongs
    to: the message shows that kind between double quotes and the [repr]
    of the operation, which shows its name (verbatim when the name is made
    of plain characters). *)
Theorem validation_error_names_kind_and_operation
    (tl : list typedef.t) (fns : list future_function.t) (w : world) :
  (exists fn p, In fn fns /\ In p (future_function.params fn) /\
                ~ In (param.type_name p) (map typedef.name tl)) ->
  exists fn p,
    In fn fns /\ In p (future_function.params fn) /\
    ~ In (param.type_name p) (map typedef.name tl) /\
    fst (run tl fns w) = Raise (Exception (bad_type_message p fn)) /\
    exit_status (fst (run tl fns w)) <> 0 /\
    occurs_in (str1 dquote +:+ param.type_name p +:+ str1 dquote)
              (bad_type_message p fn) /\
    occurs_in ("name=" +:+ repr_str (future_function.name fn))
              (bad_type_message p fn) /\
    (plain (future_function.name fn) = true ->
     occurs_in (future_function.name fn) (bad_type_message p fn)).
Proof.
  intros (fn0 & p0 & Hf0 & Hp0 & Hn0).
  destruct (first_bad (map typedef.name tl) fns) as [[fn p]|] eqn:E.
  - pose proof (validate_result file__ dirname normpath tl fns w) as R.
    rewrite E in R.
    rewrite (main_raised _ _ _ _ render _ _ _ _ R). simpl.
    apply first_bad_Some in E as (Hf & Hp & Hn).
    exists fn, p. repeat split; try assumption.
    + discriminate.
    + apply message_shows_kind.
    + apply message_shows_operation.
    + apply message_shows_plain_name.
  - exfalso. rewrite first_bad_None in E. apply Hn0. now apply (E fn0 p0).
Qed.

(** C4: when every parameter kind and the return kind of every operation
    is registered, the validation loop returns normally and the run goes on
    into the emission loop: [files] is bound and the first file name is
    printed. *)
Theorem registered_kinds_proceed_to_emission
    (tl : list typedef.t) (fns : list future_function.t) (w : world) :
  (forall fn, In fn fns ->
     In (future_function.ret_type fn) (map typedef.name tl) /\
     forall p, In p (future_function.params fn) ->
               In (param.type_name p) (map typedef.name tl)) ->
  fst (check tl fns w) = Return tt /\
  globals.files (m_globals (snd (run tl fns w))) = Some files /\
  exists rest,
    stdout (m_world (snd (run tl fns w))) =
    (stdout w ++ "future.h" :: rest)%list.
Proof.
  intros H.
  assert (R : fst (check tl fns w) = Return tt).
  { rewrite validate_result.
    replace (first_bad (map typedef.name tl) fns) with
      (@None (future_function.t * param.t)); [reflexivity|].
    symmetry. apply first_bad_None. intros fn p Hf Hp.
    now apply (proj2 (H fn Hf)). }
  split; [exact R|].
  rewrite (main_returned _ _ _ _ render _ _ _ R).
  match goal with |- context [emission render ?m] =>
    destruct (emission_run render m) as ([rest O] & F & _) end.
  split; [exact F|]. exists rest. rewrite O. simpl.
  destruct (validate_frame file__ dirname normpath tl fns w) as [W _].
  rewrite W. reflexivity.
Qed.

(** C5, as the code has it: the registry list is never checked for repeated
    names. Registering a kind under a name that is already registered
    changes nothing in the validation pass: the result, success or the
    exact exception, is that of the list without the extra entry. *)
Theorem duplicate_registration_not_detected
    (before after : list typedef.t) (t : typedef.t)
    (fns : list future_function.t) (w : world) :
  In (typedef.name t) (map typedef.name (before ++ after)%list) ->
  fst (check (before ++ t :: after)%list fns w) =
  fst (check (before ++ after)%list fns w).
Proof.
  intros H. rewrite !validate_result.
  rewrite (first_bad_ext (map typedef.name (before ++ t :: after)%list)
             (map typedef.name (before ++ after)%list)); [reflexivity|].
  intros x. rewrite map_app, in_app_iff in H.
  rewrite !map_app. simpl. rewrite !in_app_iff. simpl.
  split.
  - intros [Hx|[Hx|Hx]].
    + left. exact Hx.
    + rewrite <- Hx. exact H.
    + right. exact Hx.
  - intros [Hx|Hx].
    + left. exact Hx.
    + right. right. exact Hx.
Qed.

(** C8: on reaching the validation loop the registry and the operation list
    are bound to the file's literals, and they are bound to the same lists
    after the loop, whether it returned or raised, and at the end of the
    run: the loops bind only their own variables. *)
Theorem validation_leaves_lists_unchanged
    (tl : list typedef.t) (fns : list future_function.t) (w : world) :
  let before := m_globals (boot file__ dirname normpath tl fns w) in
  let after := m_globals (snd (check tl fns w)) in
  let final := m_globals (snd (run tl fns w)) in
  (globals.typedef_list before = tl /\
   globals.type_list before = map typedef.name tl /\
   globals.future_functions before = fns) /\
  (globals.typedef_list after = tl /\
   globals.type_list after = map typedef.name tl /\
   globals.future_functions after = fns) /\
  (globals.typedef_list final = tl /\
   globals.type_list final = map typedef.name tl /\
   globals.future_functions final = fns).
Proof.
  intros before after final.
  assert (A : globals.typedef_list after = tl /\
              globals.type_list after = map typedef.name tl /\
              globals.future_functions after = fns).
  { destruct (frame_globals _ _ (validate_frame file__ dirname normpath tl fns w))
      as (A1 & A2 & A3 & _). now repeat split. }
  split; [now repeat split|]. split; [exact A|].
  subst final. destruct (fst (check tl fns w)) as [[]|e] eqn:R.
  - rewrite (main_returned _ _ _ _ render _ _ _ R).
    match goal with |- context [emission render ?m] =>
      destruct (emission_run render m) as (_ & _ & B1 & B2 & B3) end.
    rewrite B1, B2, B3. exact A.
  - rewrite (main_raised _ _ _ _ render _ _ _ _ R). exact A.
Qed.

(** C9: two registries with the same names in the same order, whatever
    their representation descriptors, give the same validation result:
    both return normally, or both raise the same exception. *)
Theorem validation_ignores_representation
    (tl1 tl2 : list typedef.t) (fns : list future_function.t) (w : world) :
  map typedef.name tl1 = map typedef.name tl2 ->
  fst (check tl1 fns w) = fst (check tl2 fns w).
Proof.
  intros H. rewrite !validate_result. now rewrite H.
Qed.

(** C10: the validation loop raises at most once, and which error it raises
    is fixed by the scan order, operations in list order and parameters in
    declared order within each: either every scanned parameter kind is
    registered and the loop returns normally, or the loop stops at the first
    scanned parameter whose kind is not registered, with the loop variables
    left on it, and raises the message for that parameter and operation,
    which shows that parameter's kind between double quotes and the [repr]
    of that operation's name. *)
Theorem validation_raises_first_unregistered_parameter
    (tl : list typedef.t) (fns : list future_function.t) (w : world) :
  let names := map typedef.name tl in
  (Forall (fun x => In (param.type_name (snd x)) names) (scan fns) /\
   fst (check tl fns w) = Return tt)
  \/
  (exists before fn p after,
     scan fns = (before ++ (fn, p) :: after)%list /\
     Forall (fun x => In (param.type_name (snd x)) names) before /\
     ~ In (param.type_name p) names /\
     fst (check tl fns w) = Raise (Exception (bad_type_message p fn)) /\
     globals.fn (m_globals (snd (check tl fns w))) = Some fn /\
     globals.p (m_globals (snd (check tl fns w))) = Some p /\
     occurs_in (str1 dquote +:+ param.type_name p +:+ str1 dquote)
               (bad_type_message p fn) /\
     occurs_in ("name=" +:+ repr_str (future_function.name fn))
               (bad_type_message p fn)).
Proof.
  intros names.
  pose proof (validation_run (boot file__ dirname normpath tl fns w)) as V.
  simpl in V. fold names in V. rewrite first_bad_scan in V.
  destruct (find (fun x => unregistered names (snd x)) (scan fns))
    as [[fn p]|] eqn:E.
  - right. destruct V as (m' & R & _ & Fn & P).
    apply find_split in E as (b & a & S & Fb & Hp).
    exists b, fn, p, a. unfold validate. rewrite R. simpl.
    split; [exact S|]. split.
    { eapply Forall_impl; [exact Fb|]. intros x Hx.
      now apply unregistered_false. }
    split; [now apply unregistered_spec|]. split; [reflexivity|].
    split; [exact Fn|]. split; [exact P|].
    split; [apply message_shows_kind | apply message_shows_operation].
  - left. destruct V as (m' & R & _). unfold validate. rewrite R.
    split; [|reflexivity]. rewrite find_none_iff in E.
    apply List.Forall_forall. intros x Hx. apply unregistered_false. now apply E.
Qed.

End Claims.

(** ** The lists of the file, and the sample runs *)

Ltac registered := apply py_in_In; vm_compute; reflexivity.

Ltac not_registered := apply unregistered_spec; vm_compute; reflexivity.

(** The operation names of the file's own [future_functions] are pairwise
    distinct. *)
Example future_functions_names_distinct :
  NoDup (map future_function.name future_functions).
Proof. apply (bool_decide_unpack _). vm_compute. exact I. Qed.

Lemma first_bad_None_params (names : list string)
    (fns : list future_function.t) :
  first_bad names fns = None <->
  forall ps p, In ps (map future_function.params fns) -> In p ps ->
               In (param.type_name p) names.
Proof.
  rewrite first_bad_None. split.
  - intros H ps p Hps Hp. apply in_map_iff in Hps as (fn & <- & Hf).
    now apply (H fn p).
  - intros H fn p Hf Hp. apply (H (future_function.params fn) p); [|exact Hp].
    apply in_map_iff. now exists fn.
Qed.

(** C6, as the code has it: the generator never compares operation names.
    Whether the validation loop returns is decided by the parameter lists
    alone: two operation lists with the same parameter lists, whatever the
    names of their operations, repeated or not, both pass or both fail. *)
Theorem operation_names_not_checked
    (file__ : string) (dirname normpath : string -> string)
    (tl : list typedef.t) (fns fns' : list future_function.t) (w : world) :
  map future_function.params fns = map future_function.params fns' ->
  (fst (validate file__ dirname normpath tl fns w) = Return tt <->
   fst (validate file__ dirname normpath tl fns' w) = Return tt).
Proof.
  intros H. rewrite !validate_result.
  assert (E : first_bad (map typedef.name tl) fns = None <->
              first_bad (map typedef.name tl) fns' = None).
  { rewrite !first_bad_None_params. now rewrite H. }
  destruct (first_bad (map typedef.name tl) fns) as [[fn p]|],
           (first_bad (map typedef.name tl) fns') as [[fn' p']|];
    split; intros K; try reflexivity; try discriminate K.
  - destruct E as [_ E]. discriminate (E eq_refl).
  - destruct E as [E _]. discriminate (E eq_refl).
Qed.

(** C6 fails as stated: two different operations with the same name [ping]
    pass the validation loop, and the run goes on to write the files. *)
Lemma repeated_operation_name_accepted :
  let fns := [future_function.mk "bool" "ping" [param.mk "bool" "flag"];
              future_function.mk "uint32_t" "ping"
                [param.mk "const_char_ptr" "text"]] in
  ~ NoDup (map future_function.name fns) /\
  fst (sample_validate typedef_list fns sample_world) = Return tt /\
  fst (sample_main typedef_list fns sample_world) = Return tt /\
  fs (m_world (snd (sample_main typedef_list fns sample_world)))
    !! "tests/mock_server/future-functions.c" = Some "/* future-functions.c */".
Proof.
  split.
  - intros H. apply (bool_decide_pack _) in H. vm_compute in H. exact H.
  - repeat split; vm_compute; reflexivity.
Qed.

Lemma operation_names_not_checked_witness :
  let same := fun fn => future_function.mk (future_function.ret_type fn) "ping"
                          (future_function.params fn) in
  fst (sample_validate typedef_list future_functions sample_world) = Return tt /\
  fst (sample_validate typedef_list (map same future_functions) sample_world) =
    Return tt.
Proof.
  intros same. unfold sample_validate.
  assert (H : fst (validate sample_file sample_dirname sample_normpath
                     typedef_list future_functions sample_world) = Return tt)
    by (vm_compute; reflexivity).
  split; [exact H|].
  apply (operation_names_not_checked
           sample_file sample_dirname sample_normpath typedef_list
           future_functions (map same future_functions) sample_world);
    [reflexivity | exact H].
Defined.

(** C1 fails as stated: an operation whose return kind is not registered
    passes the validation loop, and the run goes on to write the files. *)
Lemma return_kind_not_checked :
  ~ In (future_function.ret_type frobnicate_ping)
       (map typedef.name typedef_list) /\
  fst (sample_validate typedef_list [frobnicate_ping] sample_world) =
    Return tt /\
  fst (sample_main typedef_list [frobnicate_ping] sample_world) = Return tt /\
  fs (m_world (snd (sample_main typedef_list [frobnicate_ping] sample_world)))
    !! "tests/mock_server/future-functions.c" = Some "/* future-functions.c */".
Proof.
  split.
  - rewrite <- py_in_In. vm_compute. discriminate.
  - repeat split; vm_compute; reflexivity.
Qed.

(** C5 fails as stated: a registry with the name [bool] twice is accepted,
    and the run validates and writes the files. *)
Lemma duplicate_registration_accepted :
  let tl := [typedef.mk "bool" None; typedef.mk "bool" (Some "int")] in
  let fns := [future_function.mk "bool" "ping" [param.mk "bool" "flag"]] in
  ~ NoDup (map typedef.name tl) /\
  fst (sample_validate tl fns sample_world) = Return tt /\
  fst (sample_main tl fns sample_world) = Return tt /\
  fs (m_world (snd (sample_main tl fns sample_world)))
    !! "tests/mock_server/future.h" = Some "/* future.h */".
Proof.
  split.
  - intros H. apply (bool_decide_pack _) in H. vm_compute in H. exact H.
  - repeat split; vm_compute; reflexivity.
Qed.

Lemma validation_failure_emits_nothing_witness :
  fst (sample_validate typedef_list [ping_frobnicator] sample_world) =
    Raise (Exception
             (bad_type_message (param.mk "frobnicator_ptr" "msg")
                ping_frobnicator)) /\
  m_world (snd (sample_main typedef_list [ping_frobnicator] sample_world)) =
    sample_world.
Proof.
  assert (H : fst (sample_validate typedef_list [ping_frobnicator] sample_world) =
              Raise (Exception
                       (bad_type_message (param.mk "frobnicator_ptr" "msg")
                          ping_frobnicator)))
    by (vm_compute; reflexivity).
  split; [exact H|].
  exact (proj1 (proj2 (validation_failure_emits_nothing
                         sample_file sample_dirname sample_basename
                         sample_normpath sample_render
                         typedef_list [ping_frobnicator] sample_world _ H))).
Defined.

Lemma validation_error_names_kind_and_operation_witness :
  exists fn p,
    fst (sample_main typedef_list [ping_frobnicator] sample_world) =
      Raise (Exception (bad_type_message p fn)) /\
    exit_status (fst (sample_main typedef_list [ping_frobnicator] sample_world))
      <> 0.
Proof.
  assert (H : exists fn p,
             In fn [ping_frobnicator] /\ In p (future_function.params fn) /\
             ~ In (param.type_name p) (map typedef.name typedef_list)).
  { exists ping_frobnicator, (param.mk "frobnicator_ptr" "msg").
    split; [now left|]. split; [now left | not_registered]. }
  destruct (validation_error_names_kind_and_operation
              sample_file sample_dirname sample_basename sample_normpath
              sample_render typedef_list [ping_frobnicator] sample_world H)
    as (fn & p & _ & _ & _ & R & S & _).
  exists fn, p. split; [exact R | exact S].
Defined.

Lemma registered_kinds_proceed_to_emission_witness :
  fst (sample_validate typedef_list future_functions sample_world) = Return tt /\
  globals.files
    (m_globals (snd (sample_main typedef_list future_functions sample_world))) =
    Some files.
Proof.
  assert (H : forall fn, In fn future_functions ->
                In (future_function.ret_type fn) (map typedef.name typedef_list) /\
                forall p, In p (future_function.params fn) ->
                          In (param.type_name p) (map typedef.name typedef_list)).
  { intros fn Hf. simpl in Hf.
    repeat (destruct Hf as [<-|Hf];
            [split; [registered|];
             intros p Hp; simpl in Hp;
             repeat (destruct Hp as [<-|Hp]; [registered|]); destruct Hp|]).
    destruct Hf. }
  destruct (registered_kinds_proceed_to_emission
              sample_file sample_dirname sample_basename sample_normpath
              sample_render typedef_list future_functions sample_world H)
    as (R & F & _).
  split; [exact R | exact F].
Defined.

Lemma duplicate_registration_not_detected_witness :
  In "bool" (map typedef.name [typedef.mk "bool" None]) /\
  fst (sample_validate [typedef.mk "bool" None; typedef.mk "bool" (Some "int")]
         [ping_frobnicator] sample_world) =
  fst (sample_validate [typedef.mk "bool" None] [ping_frobnicator] sample_world).
Proof.
  assert (H : In (typedef.name (typedef.mk "bool" (Some "int")))
                 (map typedef.name ([typedef.mk "bool" None] ++ [])%list))
    by (now left).
  split; [now left|].
  exact (duplicate_registration_not_detected
           sample_file sample_dirname sample_normpath
           [typedef.mk "bool" None] [] (typedef.mk "bool" (Some "int"))
           [ping_frobnicator] sample_world H).
Defined.

Lemma validation_ignores_representation_witness :
  map typedef.name [typedef.mk "bool" None; typedef.mk "char_ptr" (Some "char *")] =
  map typedef.name [typedef.mk "bool" (Some "int"); typedef.mk "char_ptr" None] /\
  fst (sample_validate
         [typedef.mk "bool" None; typedef.mk "char_ptr" (Some "char *")]
         future_functions sample_world) =
  fst (sample_validate
         [typedef.mk "bool" (Some "int"); typedef.mk "char_ptr" None]
         future_functions sample_world).
Proof.
  split; [reflexivity|].
  apply (validation_ignores_representation
           sample_file sample_dirname sample_normpath).
  reflexivity.
Defined.

(** The message of the scenario, character for character. *)
Example frobnicator_message :
  bad_type_message (param.mk "frobnicator_ptr" "msg") ping_frobnicator =
  "bad type " +:+ str1 dquote +:+ "frobnicator_ptr" +:+ str1 dquote +:+
  nl +:+ nl +:+
  "in future_function(ret_type='bool', name='ping', " +:+
  "params=[param(type_name='frobnicator_ptr', name='msg')])".
Proof. reflexivity. Qed.

(** [repr] escapes what is not plain and switches quotes on a single quote. *)
Example repr_str_escapes :
  repr_str ("a'b" +:+ str1 backslash +:+ nl) =
  str1 dquote +:+ "a'b" +:+ str1 backslash +:+ str1 backslash +:+
  str1 backslash +:+ "n" +:+ str1 dquote.
Proof. reflexivity. Qed.

(** The file's own lists run to the end and write all six files. *)
Example sample_run_writes_six_files :
  fst (sample_main typedef_list future_functions sample_world) = Return tt /\
  stdout (m_world (snd (sample_main typedef_list future_functions sample_world))) =
    files /\
  map (fun file_name =>
         fs (m_world (snd (sample_main typedef_list future_functions sample_world)))
           !! ("tests/mock_server/" +:+ file_name))
      files =
  map (fun file_name => Some ("/* " +:+ file_name +:+ " */")) files.
Proof. repeat split; vm_compute; reflexivity. Qed.

(** ** More on the validation loop *)

Lemma first_bad_app (names : list string) (fns1 fns2 : list future_function.t) :
  first_bad names (fns1 ++ fns2)%list =
  match first_bad names fns1 with
  | Some x => Some x
  | None => first_bad names fns2
  end.
Proof.
  induction fns1 as [|fn fns1 IH]; simpl; [reflexivity|].
  destruct (find (unregistered names) (future_function.params fn));
    [reflexivity | exact IH].
Qed.

Lemma last_map_pair {A B} (a : A) (l : list B) :
  last (map snd (map (pair a) l)) = last l.
Proof.
  rewrite map_map. simpl. now rewrite map_id.
Qed.

(** The inner loop, when it returns, leaves [p] on the last parameter. *)
Lemma check_params_vars (fn : future_function.t) (ps : list param.t)
    (m m' : machine) :
  for_each ps (check_param fn) m = (Return tt, m') ->
  globals.p (m_globals m') =
    from_option Some (globals.p (m_globals m)) (last ps) /\
  globals.fn (m_globals m') = globals.fn (m_globals m).
Proof.
  revert m. induction ps as [|q ps IH]; intros [g w].
  - simpl. intros [= <-]. split; reflexivity.
  - rewrite for_each_cons, check_param_step.
    destruct (unregistered (globals.type_list g) q); [discriminate|].
    intros H. destruct (IH _ H) as [P Fn]. simpl in P, Fn.
    split; [|exact Fn]. rewrite P, last_cons.
    destruct (last ps); reflexivity.
Qed.

(** The outer loop, when it returns, leaves [fn] on the last operation and
    [p] on the last parameter it visited. *)
Lemma check_functions_vars (fns : list future_function.t) (m m' : machine) :
  for_each fns check_function m = (Return tt, m') ->
  globals.fn (m_globals m') =
    from_option Some (globals.fn (m_globals m)) (last fns) /\
  globals.p (m_globals m') =
    from_option Some (globals.p (m_globals m)) (last (map snd (scan fns))).
Proof.
  revert m. induction fns as [|fn fns IH]; intros [g w].
  - simpl. intros [= <-]. split; reflexivity.
  - rewrite for_each_cons, check_function_step.
    destruct (for_each (future_function.params fn) (check_param fn)
                (Machine (bind_fn (Some fn) g) w)) as [[[]|e] m1] eqn:Inner;
      [|discriminate].
    intros H. destruct (check_params_vars _ _ _ _ Inner) as [P1 F1].
    simpl in P1, F1. destruct (IH _ H) as [F2 P2].
    rewrite F2, P2, F1, P1. split.
    + rewrite last_cons. destruct (last fns); reflexivity.
    + unfold scan. simpl. rewrite map_app, last_app, last_map_pair.
      destruct (last (map snd (flat_map _ fns))); reflexivity.
Qed.

Section MoreValidation.

Variable file__ : string.
Variables dirname normpath : string -> string.

Abbreviation check := (validate file__ dirname normpath).

(** X1: validating a concatenated operation list is validating the first
    part and, only if that returns, the second: an error in the first part
    is the error of the whole list, and later operations are not examined. *)
Theorem validation_of_concatenation
    (tl : list typedef.t) (fns1 fns2 : list future_function.t) (w : world) :
  fst (check tl (fns1 ++ fns2)%list w) =
  match fst (check tl fns1 w) with
  | Return _ => fst (check tl fns2 w)
  | Raise e => Raise e
  end.
Proof.
  rewrite !validate_result, first_bad_app.
  destruct (first_bad (map typedef.name tl) fns1) as [[fn p]|]; reflexivity.
Qed.

(** X2: registering more kinds never breaks a list of operations that
    validated: if every name of one registry is a name of another, success
    with the first gives success with the second. *)
Theorem validation_monotone_in_registry
    (tl tl' : list typedef.t) (fns : list future_function.t) (w : world) :
  (forall x, In x (map typedef.name tl) -> In x (map typedef.name tl')) ->
  fst (check tl fns w) = Return tt ->
  fst (check tl' fns w) = Return tt.
Proof.
  intros Sub. rewrite !validate_result.
  destruct (first_bad (map typedef.name tl) fns) as [[fn p]|] eqn:E;
    [discriminate|].
  intros _. rewrite first_bad_None in E.
  replace (first_bad (map typedef.name tl') fns) with
    (@None (future_function.t * param.t)); [reflexivity|].
  symmetry. apply first_bad_None. intros fn p Hf Hp. apply Sub. now apply (E fn p).
Qed.

(** X3: with an empty registry the validation loop returns only when no
    operation has a parameter; otherwise it raises for the very first
    parameter of the first operation that has one. *)
Theorem validation_with_empty_registry
    (fns : list future_function.t) (w : world) :
  fst (check [] fns w) =
  match scan fns with
  | [] => Return tt
  | (fn, p) :: _ => Raise (Exception (bad_type_message p fn))
  end.
Proof.
  rewrite validate_result, first_bad_scan. simpl.
  destruct (scan fns) as [|[fn p] rest]; reflexivity.
Qed.

(** X4: when the validation loop returns, its loop variables stay bound, as
    the templates will see them: [fn] is the last operation of the list and
    [p] the last parameter visited (unbound if there was none). *)
Theorem validation_leaves_loop_variables
    (tl : list typedef.t) (fns : list future_function.t) (w : world) :
  fst (check tl fns w) = Return tt ->
  globals.fn (m_globals (snd (check tl fns w))) = last fns /\
  globals.p (m_globals (snd (check tl fns w))) = last (map snd (scan fns)).
Proof.
  intros H. unfold validate in *.
  destruct (validation (boot file__ dirname normpath tl fns w))
    as [[[]|e] m'] eqn:V; simpl in H; [|discriminate].
  unfold validation, bind, get_globals in V. simpl in V.
  destruct (check_functions_vars _ _ _ V) as [F P]. simpl in F, P.
  simpl. rewrite F, P. split.
  - destruct (last fns); reflexivity.
  - destruct (last (map snd (scan fns))); reflexivity.
Qed.

End MoreValidation.

Lemma validation_monotone_in_registry_witness :
  fst (sample_validate typedef_list future_functions sample_world) = Return tt /\
  fst (sample_validate (typedef_list ++ [typedef.mk "frobnicator_ptr" None])%list
         future_functions sample_world) = Return tt.
Proof.
  unfold sample_validate.
  assert (H : fst (validate sample_file sample_dirname sample_normpath
                     typedef_list future_functions sample_world) = Return tt)
    by (vm_compute; reflexivity).
  split; [exact H|].
  refine (validation_monotone_in_registry
            sample_file sample_dirname sample_normpath typedef_list
            (typedef_list ++ [typedef.mk "frobnicator_ptr" None])%list
            future_functions sample_world _ H).
  intros x Hx. rewrite map_app. apply in_or_app. left. exact Hx.
Defined.

Lemma validation_leaves_loop_variables_witness :
  fst (sample_validate typedef_list future_functions sample_world) = Return tt /\
  globals.fn
    (m_globals (snd (sample_validate typedef_list future_functions sample_world))) =
  last future_functions.
Proof.
  unfold sample_validate.
  assert (H : fst (validate sample_file sample_dirname sample_normpath
                     typedef_list future_functions sample_world) = Return tt)
    by (vm_compute; reflexivity).
  split; [exact H|].
  exact (proj1 (validation_leaves_loop_variables
                  sample_file sample_dirname sample_normpath
                  typedef_list future_functions sample_world H)).
Defined.

(** ** More on the emission loop *)

Lemma same_base_refl (g : globals.t) : same_base g g.
Proof. reflexivity. Qed.

Lemma same_base_trans (g1 g2 g3 : globals.t) :
  same_base g1 g2 -> same_base g2 g3 -> same_base g1 g3.
Proof. unfold same_base. intros H1 H2. now rewrite H2. Qed.

Lemma same_base_rendering (g : globals.t) (n t : string) :
  same_base g (rendering_globals g n t).
Proof. reflexivity. Qed.

Lemma same_base_file_name (g : globals.t) (n : string) :
  same_base g (bind_file_name n g).
Proof. reflexivity. Qed.

(** Globals with the same base give the same paths and the same globals
    to [render]. *)
Lemma same_base_paths (g g' : globals.t) :
  same_base g g' ->
  (forall n, template_path g' n = template_path g n) /\
  (forall n, output_path g' n = output_path g n) /\
  (forall n t, rendering_globals g' n t = rendering_globals g n t).
Proof.
  unfold same_base, rendering_globals, template_path, output_path.
  destruct g, g'. unfold bind_f, bind_template, bind_file_name. simpl.
  intros H. inversion H; subst. repeat split.
Qed.

(** One round of the loop, case by case. *)
Lemma emit_file_cases (render : string -> globals.t -> option string)
    (x : string) (g : globals.t) (w : world) :
  emit_file render x (Machine g w) =
  match fs w !! template_path g x with
  | None =>
      (Raise (IOError (template_path g x)),
       Machine (bind_file_name x g)
         (World (stdout w ++ [x])%list (fs w) (writable w)))
  | Some t =>
      if writable w (output_path g x) then
        match render t (rendering_globals g x t) with
        | Some text =>
            (Return tt,
             Machine (rendering_globals g x t)
               (World (stdout w ++ [x])%list
                  (<[output_path g x := text]> (fs w)) (writable w)))
        | None =>
            (Raise TemplateError,
             Machine (rendering_globals g x t)
               (World (stdout w ++ [x])%list
                  (<[output_path g x := ""]> (fs w)) (writable w)))
        end
      else
        (Raise (IOError (output_path g x)),
         Machine (bind_template t (bind_file_name x g))
           (World (stdout w ++ [x])%list (fs w) (writable w)))
  end.
Proof.
  unfold emit_file, bind, assign, print, act, get_globals, read_file,
    open_w, write, raise; simpl.
  fold (template_path g x). fold (output_path g x).
  destruct (fs w !! template_path g x) as [t|]; simpl; [|reflexivity].
  destruct (writable w (output_path g x)); simpl; [|reflexivity].
  fold (rendering_globals g x t).
  destruct (render t (rendering_globals g x t)) as [text|]; simpl;
    [|reflexivity].
  unfold act. simpl. rewrite lookup_insert_eq. simpl.
  rewrite insert_insert_eq. reflexivity.
Qed.

Lemma for_each_app {A} (xs ys : list A) (body : A -> M unit) (m : machine) :
  for_each (xs ++ ys)%list body m =
  match for_each xs body m with
  | (Return _, m') => for_each ys body m'
  | (Raise e, m') => (Raise e, m')
  end.
Proof.
  revert m. induction xs as [|x xs IH]; intros m; [reflexivity|].
  simpl app. rewrite !for_each_cons.
  destruct (body x m) as [[[]|e] m1]; [apply IH | reflexivity].
Qed.

Lemma same_base_template (g : globals.t) (n t : string) :
  same_base g (bind_template t (bind_file_name n g)).
Proof. reflexivity. Qed.

(** The loop writes at the output paths of its files and nowhere else, and
    prints the names of the files it reached, in order. *)
Lemma emit_files_effects (render : string -> globals.t -> option string)
    (g : globals.t) (xs : list string) (m : machine) :
  same_base g (m_globals m) ->
  same_base g (m_globals (snd (for_each xs (emit_file render) m))) /\
  (forall path, (forall n, In n xs -> output_path g n <> path) ->
     fs (m_world (snd (for_each xs (emit_file render) m))) !! path =
     fs (m_world m) !! path) /\
  exists k, k <= length xs /\
    stdout (m_world (snd (for_each xs (emit_file render) m))) =
      (stdout (m_world m) ++ take k xs)%list /\
    (fst (for_each xs (emit_file render) m) = Return tt -> k = length xs).
Proof.
  revert m. induction xs as [|x xs IH]; intros [g0 w] B; simpl in B.
  - simpl. split; [exact B|]. split; [reflexivity|].
    exists 0. split; [lia|]. split; [now rewrite app_nil_r | reflexivity].
  - rewrite for_each_cons, emit_file_cases.
    destruct (same_base_paths _ _ B) as (TP & OP & RG).
    rewrite TP, OP.
    destruct (fs w !! template_path g x) as [t|];
      [destruct (writable w (output_path g x))|].
    + rewrite RG. destruct (render t (rendering_globals g x t)) as [text|].
      * match goal with |- context [for_each xs _ ?m1] =>
          destruct (IH m1 (same_base_rendering g x t)) as (B' & U & k & Hk & O & R)
        end.
        split; [exact B'|]. split.
        -- intros path Hp. rewrite U by (intros n Hn; apply Hp; now right).
           simpl. apply lookup_insert_ne, Hp. now left.
        -- exists (S k). split; [simpl; lia|]. split.
           ++ rewrite O. simpl. now rewrite <- app_assoc.
           ++ intros E. simpl. f_equal. exact (R E).
      * simpl. split; [apply same_base_rendering|]. split.
        -- intros path Hp. apply lookup_insert_ne, Hp. now left.
        -- exists 1. split; [simpl; lia|]. split; [reflexivity | discriminate].
    + simpl. split; [eapply same_base_trans; [exact B | apply same_base_template]|].
      split; [reflexivity|].
      exists 1. split; [simpl; lia|]. split; [reflexivity | discriminate].
    + simpl. split; [eapply same_base_trans; [exact B | apply same_base_file_name]|].
      split; [reflexivity|].
      exists 1. split; [simpl; lia|]. split; [reflexivity | discriminate].
Qed.

Lemma append_inv_head (a b c : string) : a +:+ b = a +:+ c -> b = c.
Proof.
  induction a as [|x a IH]; [trivial|]. rewrite !append_cons.
  intros [= H]. exact (IH H).
Qed.

Lemma joinpath_relative (a b : string) :
  starts_with_slash b = false ->
  joinpath a b =
  (if String.eqb a "" || ends_with_slash a then a else a +:+ "/") +:+ b.
Proof.
  intros H. unfold joinpath. rewrite H.
  destruct (String.eqb a "" || ends_with_slash a);
    [reflexivity | now rewrite append_assoc].
Qed.

Lemma files_relative (n : string) : In n files -> starts_with_slash n = false.
Proof.
  intros H. simpl in H.
  repeat (destruct H as [<-|H]; [reflexivity|]). destruct H.
Qed.

(** The six output paths are pairwise distinct, whatever the directory. *)
Lemma output_paths_distinct (g : globals.t) (n n' : string) :
  In n files -> In n' files -> output_path g n = output_path g n' -> n = n'.
Proof.
  intros Hn Hn'. unfold output_path.
  rewrite (joinpath_relative _ n (files_relative n Hn)).
  rewrite (joinpath_relative _ n' (files_relative n' Hn')).
  apply append_inv_head.
Qed.

Section EmissionRounds.

Variable render : string -> globals.t -> option string.
Variable g : globals.t.

(** Rounds that find their templates, can open their output files and
    render the templates all return, and each output file then holds the
    rendering of its template. *)
Lemma emit_files_success (xs : list string) (m : machine) :
  same_base g (m_globals m) ->
  List.NoDup xs ->
  (forall n n', In n xs -> In n' xs ->
     output_path g n = output_path g n' -> n = n') ->
  (forall n n', In n xs -> In n' xs -> template_path g n <> output_path g n') ->
  (forall n, In n xs ->
     exists t text, fs (m_world m) !! template_path g n = Some t /\
                    render t (rendering_globals g n t) = Some text) ->
  (forall n, In n xs -> writable (m_world m) (output_path g n) = true) ->
  exists m',
    for_each xs (emit_file render) m = (Return tt, m') /\
    same_base g (m_globals m') /\
    stdout (m_world m') = (stdout (m_world m) ++ xs)%list /\
    writable (m_world m') = writable (m_world m) /\
    (forall n t, In n xs -> fs (m_world m) !! template_path g n = Some t ->
       fs (m_world m') !! output_path g n =
       render t (rendering_globals g n t)) /\
    (forall path, (forall n, In n xs -> output_path g n <> path) ->
       fs (m_world m') !! path = fs (m_world m) !! path).
Proof.
  revert m. induction xs as [|x xs IH]; intros [g0 w] B ND Inj Sep Tpl Wr;
    simpl in B.
  - exists (Machine g0 w). simpl. split; [reflexivity|]. split; [exact B|].
    split; [now rewrite app_nil_r|]. split; [reflexivity|].
    split; [intros n t []|reflexivity].
  - rewrite for_each_cons, emit_file_cases.
    destruct (same_base_paths _ _ B) as (TP & OP & RG). rewrite TP, OP.
    destruct (Tpl x (or_introl eq_refl)) as (t & text & Ht & Hr).
    simpl in Ht. rewrite Ht, RG, Hr.
    pose proof (Wr x (or_introl eq_refl)) as Hw. simpl in Hw. rewrite Hw.
    inversion ND as [|? ? Hx ND']; subst.
    set (m1 := Machine (rendering_globals g x t)
                 (World (stdout w ++ [x])%list
                    (<[output_path g x := text]> (fs w)) (writable w))).
    assert (Keep : forall n, In n xs ->
              fs (m_world m1) !! template_path g n = fs w !! template_path g n).
    { intros n Hn. simpl. apply lookup_insert_ne. intros E.
      apply (Sep n x); [now right | now left | now symmetry]. }
    destruct (IH m1) as (m' & R & B' & O & Wr' & W & U).
    + apply same_base_rendering.
    + exact ND'.
    + intros a b Ha Hb. apply Inj; now right.
    + intros a b Ha Hb. apply Sep; now right.
    + intros n Hn. rewrite (Keep n Hn). apply Tpl. now right.
    + intros n Hn. simpl. apply Wr. now right.
    + exists m'. split; [exact R|]. split; [exact B'|]. split.
      { rewrite O. simpl. now rewrite <- app_assoc. }
      split; [exact Wr'|]. split.
      * intros n t' [<-|Hn] Hn'; simpl in Hn'.
        -- rewrite Ht in Hn'. injection Hn' as <-.
           rewrite U.
           ++ simpl. rewrite lookup_insert_eq. now rewrite Hr.
           ++ intros b Hb E. apply Hx.
              rewrite <- (Inj b x); [exact Hb | now right | now left | exact E].
        -- apply W; [exact Hn | now rewrite (Keep n Hn)].
      * intros path Hp. rewrite U by (intros n Hn; apply Hp; now right).
        simpl. apply lookup_insert_ne, Hp. now left.
Qed.

(** Conversely, rounds that all returned found every template, could open
    every output file and rendered every template. *)
Lemma emit_files_returned (xs : list string) (m m' : machine) :
  same_base g (m_globals m) ->
  (forall n n', In n xs -> In n' xs -> template_path g n <> output_path g n') ->
  for_each xs (emit_file render) m = (Return tt, m') ->
  forall n, In n xs ->
    writable (m_world m) (output_path g n) = true /\
    exists t text, fs (m_world m) !! template_path g n = Some t /\
                   render t (rendering_globals g n t) = Some text.
Proof.
  revert m. induction xs as [|x xs IH]; intros [g0 w] B Sep R n Hn;
    [destruct Hn|]. simpl in B.
  rewrite for_each_cons, emit_file_cases in R.
  destruct (same_base_paths _ _ B) as (TP & OP & RG). rewrite TP, OP in R.
  destruct (fs w !! template_path g x) as [t|] eqn:Ht; [|discriminate].
  destruct (writable w (output_path g x)) eqn:Hw; [|discriminate].
  rewrite RG in R.
  destruct (render t (rendering_globals g x t)) as [text|] eqn:Hr;
    [|discriminate].
  destruct Hn as [<-|Hn]; simpl.
  - split; [exact Hw|]. now exists t, text.
  - match type of R with for_each xs _ ?m1 = _ =>
      destruct (IH m1 (same_base_rendering g x t)
                  (fun a b Ha Hb => Sep a b (or_intror Ha) (or_intror Hb))
                  R n Hn) as (W1 & t1 & text1 & Ht1 & Hr1)
    end.
    simpl in W1, Ht1. split; [exact W1|]. exists t1, text1. split; [|exact Hr1].
    rewrite <- Ht1. symmetry. apply lookup_insert_ne. intros E.
    apply (Sep n x); [now right | now left | now symmetry].
Qed.

End EmissionRounds.

Lemma frame_dirs (m m' : machine) :
  frame m m' ->
  globals.template_dir (m_globals m') = globals.template_dir (m_globals m) /\
  globals.mock_server_dir (m_globals m') = globals.mock_server_dir (m_globals m).
Proof.
  intros [_ G]. destruct m as [g w], m' as [g' w']; simpl in *.
  destruct g, g'; simpl in *. unfold bind_p, bind_fn in G; simpl in G.
  inversion G; subst. split; reflexivity.
Qed.

Lemma files_nodup : List.NoDup files.
Proof. apply NoDup_ListNoDup, (bool_decide_unpack _). vm_compute. exact I. Qed.

Section MoreEmission.

Variable file__ : string.
Variables dirname basename normpath : string -> string.
Variable render : string -> globals.t -> option string.

Abbreviation run := (main file__ dirname basename normpath render).
Abbreviation check := (validate file__ dirname normpath).

(** The template read and the file written in the round for [n]. *)
Abbreviation tpl n :=
  (joinpath (joinpath (dirname file__) "future_function_templates")
     (n +:+ ".template")).
Abbreviation out n :=
  (joinpath (normpath (joinpath (dirname file__) "../tests/mock_server")) n).

(** The globals on entering the emission loop, and those [render] receives
    in the round for [n] with template text [t]. *)
Abbreviation entering tl fns w :=
  (bind_files files
     (bind_header_comment (header_comment file__ basename)
        (m_globals (snd (check tl fns w))))).
Abbreviation seen tl fns w n t := (rendering_globals (entering tl fns w) n t).

Lemma entering_paths tl fns w :
  (forall n, template_path (entering tl fns w) n = tpl n) /\
  (forall n, output_path (entering tl fns w) n = out n).
Proof.
  destruct (frame_dirs _ _ (validate_frame file__ dirname normpath tl fns w))
    as [T O].
  unfold template_path, output_path. simpl. rewrite T, O. split; reflexivity.
Qed.

(** After a validation that returned, the run is the emission loop. *)
Lemma main_emission tl fns w :
  fst (check tl fns w) = Return tt ->
  run tl fns w =
  for_each files (emit_file render) (Machine (entering tl fns w) w).
Proof.
  intros H. rewrite (main_returned _ _ _ _ render _ _ _ H).
  destruct (validate_frame file__ dirname normpath tl fns w) as [W _].
  unfold emission, bind, assign. simpl. rewrite W. reflexivity.
Qed.

(** X5: whatever the outcome of the run, a file whose path is not one of
    the six output paths is left as it was. *)
Theorem run_writes_only_output_files
    (tl : list typedef.t) (fns : list future_function.t) (w : world)
    (path : string) :
  (forall n, In n files -> out n <> path) ->
  fs (m_world (snd (run tl fns w))) !! path = fs w !! path.
Proof.
  intros Hp. destruct (fst (check tl fns w)) as [[]|e] eqn:R.
  - rewrite (main_emission _ _ _ R).
    destruct (emit_files_effects render (entering tl fns w) files
                (Machine (entering tl fns w) w) (same_base_refl _))
      as (_ & U & _).
    rewrite U; [reflexivity|].
    intros n Hn. rewrite (proj2 (entering_paths tl fns w)). now apply Hp.
  - rewrite (main_raised _ _ _ _ render _ _ _ _ R). simpl.
    destruct (validate_frame file__ dirname normpath tl fns w) as [W _].
    now rewrite W.
Qed.

(** X6: what a run prints is an initial segment of the file list, in the
    order of the list, and the whole list when the run returns. *)
Theorem run_prints_files_in_order
    (tl : list typedef.t) (fns : list future_function.t) (w : world) :
  exists k, k <= length files /\
    stdout (m_world (snd (run tl fns w))) = (stdout w ++ take k files)%list /\
    (fst (run tl fns w) = Return tt -> k = length files).
Proof.
  destruct (fst (check tl fns w)) as [[]|e] eqn:R.
  - rewrite (main_emission _ _ _ R).
    destruct (emit_files_effects render (entering tl fns w) files
                (Machine (entering tl fns w) w) (same_base_refl _))
      as (_ & _ & k & Hk & O & F).
    exists k. repeat split; assumption.
  - rewrite (main_raised _ _ _ _ render _ _ _ _ R). simpl.
    destruct (validate_frame file__ dirname normpath tl fns w) as [W _].
    exists 0. split; [lia|]. split; [|discriminate].
    rewrite W. simpl. now rewrite app_nil_r.
Qed.

(** The rounds before the one for [n], when they all succeed. *)
Lemma emission_prefix tl fns w (pre post : list string) (n : string) :
  fst (check tl fns w) = Return tt ->
  files = (pre ++ n :: post)%list ->
  (forall a b, In a (pre ++ [n])%list -> In b pre -> tpl a <> out b) ->
  (forall a, In a pre ->
     exists t text, fs w !! tpl a = Some t /\
                    render t (seen tl fns w a t) = Some text) ->
  (forall a, In a pre -> writable w (out a) = true) ->
  exists m1,
    run tl fns w =
      match emit_file render n m1 with
      | (Return _, m2) => for_each post (emit_file render) m2
      | (Raise e, m2) => (Raise e, m2)
      end /\
    same_base (entering tl fns w) (m_globals m1) /\
    stdout (m_world m1) = (stdout w ++ pre)%list /\
    writable (m_world m1) = writable w /\
    (forall a t, In a pre -> fs w !! tpl a = Some t ->
       fs (m_world m1) !! out a = render t (seen tl fns w a t)) /\
    (forall path, (forall a, In a pre -> out a <> path) ->
       fs (m_world m1) !! path = fs w !! path).
Proof.
  intros R Split Sep Tpl Wr.
  destruct (entering_paths tl fns w) as [TP OP].
  assert (Sub : forall a, In a pre -> In a files).
  { intros a Ha. rewrite Split. apply in_or_app. now left. }
  destruct (emit_files_success render (entering tl fns w) pre
              (Machine (entering tl fns w) w))
    as (m1 & E & B & O & Wr1 & W & U).
  - apply same_base_refl.
  - pose proof files_nodup as ND. rewrite Split in ND.
    exact (List.NoDup_app_remove_r _ _ ND).
  - intros a b Ha Hb. apply output_paths_distinct; now apply Sub.
  - intros a b Ha Hb. rewrite TP, OP. apply Sep; [|exact Hb].
    apply in_or_app. now left.
  - intros a Ha. simpl. rewrite TP. now apply Tpl.
  - intros a Ha. simpl. rewrite OP. now apply Wr.
  - exists m1.
    split; [|split; [exact B|split; [exact O|split; [exact Wr1|split]]]].
    + transitivity (for_each (pre ++ n :: post)%list (emit_file render)
                      (Machine (entering tl fns w) w)).
      * rewrite <- Split. exact (main_emission _ _ _ R).
      * rewrite for_each_app, E. apply for_each_cons.
    + intros a t Ha Ht. rewrite <- OP. apply W; [exact Ha|].
      simpl. now rewrite TP.
    + intros path Hp. apply U. intros a Ha. rewrite OP. now apply Hp.
Qed.

(** X7: when validation returns, every template is there and renders, every
    output file can be opened for writing, and no template is itself an
    output file, the run returns, prints the six file names, and leaves in
    each output file exactly the rendering of its template under the
    globals of its round. *)
Theorem emission_writes_every_file
    (tl : list typedef.t) (fns : list future_function.t) (w : world) :
  fst (check tl fns w) = Return tt ->
  (forall n n', In n files -> In n' files -> tpl n <> out n') ->
  (forall n, In n files ->
     exists t text, fs w !! tpl n = Some t /\
                    render t (seen tl fns w n t) = Some text) ->
  (forall n, In n files -> writable w (out n) = true) ->
  fst (run tl fns w) = Return tt /\
  stdout (m_world (snd (run tl fns w))) = (stdout w ++ files)%list /\
  forall n t, In n files -> fs w !! tpl n = Some t ->
    fs (m_world (snd (run tl fns w))) !! out n =
    render t (seen tl fns w n t).
Proof.
  intros R Sep Tpl Wr. destruct (entering_paths tl fns w) as [TP OP].
  rewrite (main_emission _ _ _ R).
  destruct (emit_files_success render (entering tl fns w) files
              (Machine (entering tl fns w) w)) as (m' & E & _ & O & _ & W & _).
  - apply same_base_refl.
  - exact files_nodup.
  - apply output_paths_distinct.
  - intros a b Ha Hb. rewrite TP, OP. now apply Sep.
  - intros a Ha. simpl. rewrite TP. now apply Tpl.
  - intros a Ha. simpl. rewrite OP. now apply Wr.
  - rewrite E. simpl. split; [reflexivity|]. split; [exact O|].
    intros n t Hn Ht. rewrite <- OP. apply W; [exact Hn|].
    simpl. now rewrite TP.
Qed.

(** The round for [n] cannot open its output file: the run raises
    [IOError] for the output path, and only the earlier output files have
    changed. *)
Lemma unwritable_output_stops_emission
    (tl : list typedef.t) (fns : list future_function.t) (w : world)
    (pre post : list string) (n t : string) :
  fst (check tl fns w) = Return tt ->
  files = (pre ++ n :: post)%list ->
  (forall a b, In a (pre ++ [n])%list -> In b pre -> tpl a <> out b) ->
  (forall a, In a pre ->
     exists t text, fs w !! tpl a = Some t /\
                    render t (seen tl fns w a t) = Some text) ->
  (forall a, In a pre -> writable w (out a) = true) ->
  fs w !! tpl n = Some t ->
  writable w (out n) = false ->
  fst (run tl fns w) = Raise (IOError (out n)) /\
  stdout (m_world (snd (run tl fns w))) = (stdout w ++ pre ++ [n])%list /\
  (forall path, (forall a, In a pre -> out a <> path) ->
     fs (m_world (snd (run tl fns w))) !! path = fs w !! path).
Proof.
  intros R Split Sep Tpl Wr Ht Locked.
  destruct (emission_prefix tl fns w pre post n R Split Sep Tpl Wr)
    as ([g1 w1] & E & B & O & Wr1 & W & U). simpl in B, O, Wr1, W, U.
  destruct (entering_paths tl fns w) as [TP OP].
  destruct (same_base_paths _ _ B) as (TP1 & OP1 & RG1).
  rewrite E, emit_file_cases, TP1, TP, OP1, OP, Wr1.
  rewrite U, Ht, Locked.
  - simpl. split; [reflexivity|]. split; [now rewrite O, <- app_assoc|].
    exact U.
  - intros a Ha E'. apply (Sep n a); [|exact Ha|now symmetry].
    apply in_or_app. right. now left.
Qed.

(** X8: the emission is not all-or-nothing. When the template of [n] is
    missing and the rounds before it succeed, the run raises [IOError] for
    that template's path after printing [n]; the earlier output files are
    written, and every other file, the output file of [n] included, is as
    it was. *)
Theorem missing_template_stops_emission
    (tl : list typedef.t) (fns : list future_function.t) (w : world)
    (pre post : list string) (n : string) :
  fst (check tl fns w) = Return tt ->
  files = (pre ++ n :: post)%list ->
  (forall a b, In a (pre ++ [n])%list -> In b pre -> tpl a <> out b) ->
  (forall a, In a pre ->
     exists t text, fs w !! tpl a = Some t /\
                    render t (seen tl fns w a t) = Some text) ->
  (forall a, In a pre -> writable w (out a) = true) ->
  fs w !! tpl n = None ->
  fst (run tl fns w) = Raise (IOError (tpl n)) /\
  stdout (m_world (snd (run tl fns w))) = (stdout w ++ pre ++ [n])%list /\
  (forall a t, In a pre -> fs w !! tpl a = Some t ->
     fs (m_world (snd (run tl fns w))) !! out a =
     render t (seen tl fns w a t)) /\
  (forall path, (forall a, In a pre -> out a <> path) ->
     fs (m_world (snd (run tl fns w))) !! path = fs w !! path).
Proof.
  intros R Split Sep Tpl Wr Missing.
  destruct (emission_prefix tl fns w pre post n R Split Sep Tpl Wr)
    as ([g1 w1] & E & B & O & _ & W & U). simpl in B, O, W, U.
  destruct (entering_paths tl fns w) as [TP OP].
  destruct (same_base_paths _ _ B) as (TP1 & OP1 & RG1).
  rewrite E, emit_file_cases, TP1, TP.
  rewrite U, Missing.
  - simpl. split; [reflexivity|]. split; [now rewrite O, <- app_assoc|].
    split; assumption.
  - intros a Ha E'. apply (Sep n a); [|exact Ha|now symmetry].
    apply in_or_app. right. now left.
Qed.

(** X9: the output file is opened, and so emptied, before its template is
    rendered. When the output file of [n] is opened and rendering its
    template then fails, and the rounds before it succeed, the run raises
    [TemplateError] and the output file of [n] is left empty, whatever it
    held; the earlier output files are written. *)
Theorem failed_rendering_empties_output
    (tl : list typedef.t) (fns : list future_function.t) (w : world)
    (pre post : list string) (n t : string) :
  fst (check tl fns w) = Return tt ->
  files = (pre ++ n :: post)%list ->
  (forall a b, In a (pre ++ [n])%list -> In b pre -> tpl a <> out b) ->
  (forall a, In a pre ->
     exists t text, fs w !! tpl a = Some t /\
                    render t (seen tl fns w a t) = Some text) ->
  (forall a, In a (pre ++ [n])%list -> writable w (out a) = true) ->
  fs w !! tpl n = Some t ->
  render t (seen tl fns w n t) = None ->
  fst (run tl fns w) = Raise TemplateError /\
  stdout (m_world (snd (run tl fns w))) = (stdout w ++ pre ++ [n])%list /\
  fs (m_world (snd (run tl fns w))) !! out n = Some "" /\
  (forall a t, In a pre -> fs w !! tpl a = Some t ->
     fs (m_world (snd (run tl fns w))) !! out a =
     render t (seen tl fns w a t)).
Proof.
  intros R Split Sep Tpl Wr Ht Fail.
  assert (WrPre : forall a, In a pre -> writable w (out a) = true).
  { intros a Ha. apply Wr, in_or_app. now left. }
  assert (WrN : writable w (out n) = true).
  { apply Wr, in_or_app. right. now left. }
  destruct (emission_prefix tl fns w pre post n R Split Sep Tpl WrPre)
    as ([g1 w1] & E & B & O & Wr1 & W & U). simpl in B, O, Wr1, W, U.
  destruct (entering_paths tl fns w) as [TP OP].
  destruct (same_base_paths _ _ B) as (TP1 & OP1 & RG1).
  rewrite E, emit_file_cases, TP1, TP, OP1, OP, Wr1, WrN.
  rewrite U, Ht, RG1, Fail.
  - simpl. split; [reflexivity|]. split; [now rewrite O, <- app_assoc|].
    split; [apply lookup_insert_eq|].
    intros a t' Ha Ht'. rewrite lookup_insert_ne; [now apply W|].
    intros E'. pose proof files_nodup as ND. rewrite Split in ND.
    apply List.NoDup_remove_2 in ND. apply ND, in_or_app. left.
    rewrite <- !OP in E'.
    rewrite (output_paths_distinct (entering tl fns w) n a); [exact Ha| | |exact E'].
    + rewrite Split. apply in_or_app. right. now left.
    + rewrite Split. apply in_or_app. now left.
  - intros a Ha E'. apply (Sep n a); [|exact Ha|now symmetry].
    apply in_or_app. right. now left.
Qed.

End MoreEmission.

(** ** Sample runs of the emission loop *)

Ltac each_of H tac :=
  simpl in H; repeat (destruct H as [<-|H]; [tac|]); destruct H.

Ltac paths_differ :=
  let E := fresh "E" in intros E; vm_compute in E; discriminate E.

Ltac sample_template :=
  idtac;
  match goal with
  | |- exists t text, _ !! joinpath _ (?n +:+ _) = _ /\ _ =>
      exists ("/* " +:+ n +:+ " */"), ("/* " +:+ n +:+ " */");
      split; [vm_compute; reflexivity | reflexivity]
  end.

Lemma run_writes_only_output_files_witness :
  fs (m_world (snd (sample_main typedef_list future_functions sample_world)))
    !! "build/future_function_templates/future.h.template" =
  Some "/* future.h */".
Proof.
  unfold sample_main.
  rewrite (run_writes_only_output_files
             sample_file sample_dirname sample_basename sample_normpath
             sample_render typedef_list future_functions sample_world
             "build/future_function_templates/future.h.template").
  - vm_compute. reflexivity.
  - intros n Hn. each_of Hn paths_differ.
Defined.

Lemma emission_writes_every_file_witness :
  fst (sample_main typedef_list future_functions sample_world) = Return tt /\
  stdout (m_world (snd (sample_main typedef_list future_functions sample_world))) =
    files.
Proof.
  unfold sample_main.
  destruct (emission_writes_every_file
              sample_file sample_dirname sample_basename sample_normpath
              sample_render typedef_list future_functions sample_world)
    as (R & O & _).
  - vm_compute. reflexivity.
  - intros n n' Hn Hn'. each_of Hn ltac:(each_of Hn' paths_differ).
  - intros n Hn. each_of Hn sample_template.
  - intros n Hn. each_of Hn ltac:(vm_compute; reflexivity).
  - split; [exact R | exact O].
Defined.

Lemma missing_template_stops_emission_witness :
  let w := World [] (delete "build/future_function_templates/future-value.h.template"
                       (fs sample_world))
             (writable sample_world) in
  fst (sample_main typedef_list future_functions w) =
    Raise (IOError "build/future_function_templates/future-value.h.template") /\
  stdout (m_world (snd (sample_main typedef_list future_functions w))) =
    ["future.h"; "future.c"; "future-value.h"].
Proof.
  intros w. unfold sample_main.
  destruct (missing_template_stops_emission
              sample_file sample_dirname sample_basename sample_normpath
              sample_render typedef_list future_functions w
              ["future.h"; "future.c"]
              ["future-value.c"; "future-functions.h"; "future-functions.c"]
              "future-value.h")
    as (R & O & _).
  - vm_compute. reflexivity.
  - reflexivity.
  - intros a b Ha Hb. each_of Ha ltac:(each_of Hb paths_differ).
  - intros a Ha. each_of Ha sample_template.
  - intros a Ha. each_of Ha ltac:(vm_compute; reflexivity).
  - vm_compute. reflexivity.
  - split; [exact R | exact O].
Defined.

Lemma failed_rendering_empties_output_witness :
  let render := fun (t : string) (_ : globals.t) =>
                  if String.eqb t "/* future.c */" then None else Some t in
  let w := World [] (<["tests/mock_server/future.c" := "old text"]>
                       (fs sample_world))
             (writable sample_world) in
  fst (main sample_file sample_dirname sample_basename sample_normpath render
         typedef_list future_functions w) = Raise TemplateError /\
  fs (m_world (snd (main sample_file sample_dirname sample_basename
                      sample_normpath render typedef_list future_functions w)))
    !! "tests/mock_server/future.c" = Some "".
Proof.
  intros render w.
  destruct (failed_rendering_empties_output
              sample_file sample_dirname sample_basename sample_normpath
              render typedef_list future_functions w
              ["future.h"]
              ["future-value.h"; "future-value.c"; "future-functions.h";
               "future-functions.c"]
              "future.c" "/* future.c */")
    as (R & _ & E & _).
  - vm_compute. reflexivity.
  - reflexivity.
  - intros a b Ha Hb. each_of Ha ltac:(each_of Hb paths_differ).
  - intros a Ha. each_of Ha sample_template.
  - intros a Ha. each_of Ha ltac:(vm_compute; reflexivity).
  - vm_compute. reflexivity.
  - reflexivity.
  - split; [exact R | exact E].
Defined.

(** In a tree without the output directory the first round reads its
    template and then fails to open its output file: the run raises
    [IOError] for [tests/mock_server/future.h] and writes nothing. *)
Example run_without_output_dir :
  fst (sample_main typedef_list future_functions
         sample_world_without_output_dir) =
    Raise (IOError "tests/mock_server/future.h") /\
  stdout (m_world (snd (sample_main typedef_list future_functions
                          sample_world_without_output_dir))) = ["future.h"] /\
  fs (m_world (snd (sample_main typedef_list future_functions
                      sample_world_without_output_dir))) =
    fs sample_world_without_output_dir.
Proof. repeat split; vm_compute; reflexivity. Qed.

(** ** The error message identifies what it reports *)

Lemma all_chars_append (P : ascii -> bool) (a b : string) :
  all_chars P (a +:+ b) = all_chars P a && all_chars P b.
Proof.
  induction a as [|c a IH]; [reflexivity|].
  rewrite append_cons. simpl. now rewrite IH, andb_assoc.
Qed.

Lemma repr_char_printable (q c : ascii) :
  q = squote \/ q = dquote -> all_chars printable (repr_char q c) = true.
Proof.
  intros [-> | ->]; destruct c as [[] [] [] [] [] [] [] []];
    vm_compute; reflexivity.
Qed.

Lemma repr_quote_cases (s : string) :
  repr_quote s = squote \/ repr_quote s = dquote.
Proof.
  unfold repr_quote. destruct (has_char squote s && negb (has_char dquote s));
    [now right | now left].
Qed.

Lemma repr_str_printable (s : string) : all_chars printable (repr_str s) = true.
Proof.
  unfold repr_str. pose proof (repr_quote_cases s) as Q.
  set (q := repr_quote s) in *. simpl.
  assert (Pq : printable q = true) by (destruct Q as [-> | ->]; reflexivity).
  rewrite Pq, all_chars_append. simpl. rewrite Pq. simpl.
  rewrite andb_true_r. clearbody q.
  induction s as [|c s IH]; [reflexivity|]. simpl.
  now rewrite all_chars_append, (repr_char_printable q c Q), IH.
Qed.

Lemma repr_param_printable (p : param.t) :
  all_chars printable (repr_param p) = true.
Proof.
  unfold repr_param. rewrite !all_chars_append, !repr_str_printable. reflexivity.
Qed.

Lemma join_comma_printable (l : list string) :
  Forall (fun x => all_chars printable x = true) l ->
  all_chars printable (join_comma l) = true.
Proof.
  induction 1 as [|x l Hx Hl IH]; [reflexivity|].
  destruct l as [|y l]; [exact Hx|].
  change (join_comma (x :: y :: l)) with (x +:+ ", " +:+ join_comma (y :: l)).
  rewrite !all_chars_append, Hx, IH. reflexivity.
Qed.

(** The [repr] of an operation is printable ASCII: it has no line break,
    whatever bytes the names of the operation hold. *)
Lemma repr_future_function_printable (fn : future_function.t) :
  all_chars printable (repr_future_function fn) = true.
Proof.
  unfold repr_future_function, repr_list.
  rewrite !all_chars_append, !repr_str_printable, join_comma_printable;
    [reflexivity|].
  induction (future_function.params fn) as [|p ps IH]; simpl;
    constructor; [apply repr_param_printable | exact IH].
Qed.

Lemma printable_not_newline (c : ascii) : printable c = true -> c <> newline.
Proof. intros H ->. discriminate H. Qed.

Lemma newline_not_printable (a y : string) :
  all_chars printable (a +:+ String newline y) = false.
Proof.
  rewrite all_chars_append. simpl. apply andb_false_r.
Qed.

(** A string is cut in one way only at its last line break. *)
Lemma cut_at_last_newline (a b x y : string) :
  all_chars printable x = true -> all_chars printable y = true ->
  a +:+ String newline x = b +:+ String newline y ->
  a = b /\ x = y.
Proof.
  intros Hx Hy. revert b. induction a as [|c a IH]; intros [|d b].
  - intros [= ->]. split; reflexivity.
  - rewrite append_cons. intros [= <- ->].
    now rewrite newline_not_printable in Hx.
  - rewrite append_cons. intros [= -> <-].
    now rewrite newline_not_printable in Hy.
  - rewrite !append_cons. intros [= -> H]. destruct (IH _ H) as [-> ->].
    split; reflexivity.
Qed.

Lemma length_append (a b : string) :
  String.length (a +:+ b) = String.length a + String.length b.
Proof.
  induction a as [|c a IH]; [reflexivity|]. rewrite append_cons. simpl.
  now rewrite IH.
Qed.

Lemma append_inv_tail (a b c : string) : a +:+ c = b +:+ c -> a = b.
Proof.
  revert b. induction a as [|x a IH]; intros [|y b] H.
  - reflexivity.
  - apply (f_equal String.length) in H. rewrite !length_append in H.
    simpl in H. lia.
  - apply (f_equal String.length) in H. rewrite !length_append in H.
    simpl in H. lia.
  - rewrite !append_cons in H. injection H as -> H. now rewrite (IH _ H).
Qed.

(** The message fixes the kind it quotes and the text of the operation. *)
Lemma message_fixes_kind (p p' : param.t) (fn fn' : future_function.t) :
  bad_type_message p fn = bad_type_message p' fn' ->
  param.type_name p = param.type_name p' /\
  repr_future_function fn = repr_future_function fn'.
Proof.
  unfold bad_type_message. intros H. do 2 apply append_inv_head in H.
  assert (E : forall k R,
             k +:+ str1 dquote +:+ str1 newline +:+ str1 newline +:+ "in " +:+ R =
             (k +:+ str1 dquote +:+ str1 newline) +:+ String newline ("in " +:+ R)).
  { intros k R. now rewrite !append_assoc. }
  rewrite !E in H. apply cut_at_last_newline in H.
  - destruct H as [K R]. split.
    + exact (append_inv_tail _ _ _ K).
    + exact (append_inv_head _ _ _ R).
  - rewrite all_chars_append. now rewrite repr_future_function_printable.
  - rewrite all_chars_append. now rewrite repr_future_function_printable.
Qed.

(** What [repr_char] wrote is read back by [unrepr_char], whatever follows. *)
Lemma unrepr_repr_char (q c : ascii) (rest : string) :
  q = squote \/ q = dquote ->
  unrepr_char (repr_char q c +:+ rest) = Some (c, rest).
Proof.
  intros [-> | ->]; destruct c as [[] [] [] [] [] [] [] []];
    vm_compute; reflexivity.
Qed.

(** [repr_char] never starts with the bare quote. *)
Lemma repr_char_head (q c : ascii) :
  q = squote \/ q = dquote ->
  exists h t, repr_char q c = String h t /\ h <> q.
Proof.
  intros [-> | ->]; destruct c as [[] [] [] [] [] [] [] []];
    (eexists _, _; split; [vm_compute; reflexivity | discriminate]).
Qed.

Lemma repr_chars_inj (q : ascii) (s s' r r' : string) :
  q = squote \/ q = dquote ->
  repr_chars q s +:+ String q r = repr_chars q s' +:+ String q r' ->
  s = s' /\ r = r'.
Proof.
  intros Q. revert s'. induction s as [|c s IH]; intros [|c' s'] H; simpl in H.
  - injection H as ->. split; reflexivity.
  - exfalso. rewrite append_assoc in H.
    destruct (repr_char_head q c' Q) as (h & t & E & Hq).
    rewrite E, append_cons in H. injection H as H _. now apply Hq.
  - exfalso. rewrite append_assoc in H.
    destruct (repr_char_head q c Q) as (h & t & E & Hq).
    rewrite E, append_cons in H. injection H as H _. now apply Hq.
  - rewrite !append_assoc in H. apply (f_equal unrepr_char) in H.
    rewrite !(unrepr_repr_char q _ _ Q) in H. injection H as -> H.
    destruct (IH _ H) as [-> ->]. split; reflexivity.
Qed.

(** [repr_str] can be read back from the head of any string: two strings
    with the same [repr] followed by the same text are the same. *)
Lemma repr_str_inj (s s' r r' : string) :
  repr_str s +:+ r = repr_str s' +:+ r' -> s = s' /\ r = r'.
Proof.
  unfold repr_str. cbv zeta. rewrite !append_cons, !append_assoc.
  intros H. injection H as Hq H. rewrite <- Hq in H.
  change (str1 (repr_quote s) +:+ r) with (String (repr_quote s) r) in H.
  change (str1 (repr_quote s) +:+ r') with (String (repr_quote s) r') in H.
  exact (repr_chars_inj _ _ _ _ _ (repr_quote_cases s) H).
Qed.

Lemma repr_param_inj (p p' : param.t) (r r' : string) :
  repr_param p +:+ r = repr_param p' +:+ r' -> p = p' /\ r = r'.
Proof.
  unfold repr_param. rewrite !append_assoc. intros H.
  apply append_inv_head, repr_str_inj in H. destruct H as [T H].
  apply append_inv_head, repr_str_inj in H. destruct H as [N H].
  apply append_inv_head in H.
  destruct p, p'; simpl in *; subst. split; reflexivity.
Qed.

Lemma repr_param_head (p : param.t) : exists t, repr_param p = String "p" t.
Proof. unfold repr_param. eexists. reflexivity. Qed.

Lemma join_comma_cons2 (x y : string) (l : list string) :
  join_comma (x :: y :: l) = x +:+ ", " +:+ join_comma (y :: l).
Proof. reflexivity. Qed.

(** The parameter list can be read back up to its closing bracket. *)
Lemma repr_params_inj (ps ps' : list param.t) (r r' : string) :
  join_comma (map repr_param ps) +:+ String "]" r =
  join_comma (map repr_param ps') +:+ String "]" r' ->
  ps = ps' /\ r = r'.
Proof.
  revert ps'. induction ps as [|p ps IH]; intros [|p' ps'] H.
  - simpl in H. injection H as ->. split; reflexivity.
  - exfalso. destruct (repr_param_head p') as [t E].
    destruct ps' as [|y ps']; simpl map in H;
      [|rewrite join_comma_cons2, append_assoc in H];
      simpl join_comma in H; rewrite E, append_cons in H; discriminate H.
  - exfalso. destruct (repr_param_head p) as [t E].
    destruct ps as [|y ps]; simpl map in H;
      [|rewrite join_comma_cons2, append_assoc in H];
      simpl join_comma in H; rewrite E, append_cons in H; discriminate H.
  - destruct ps as [|y ps], ps' as [|y' ps']; simpl map in H.
    + simpl join_comma in H. apply repr_param_inj in H as [-> H].
      injection H as ->. split; reflexivity.
    + exfalso. rewrite join_comma_cons2, append_assoc in H.
      simpl join_comma in H at 1. apply repr_param_inj in H as [_ H].
      rewrite append_assoc, append_cons in H. discriminate H.
    + exfalso. rewrite join_comma_cons2, append_assoc in H.
      replace (join_comma [repr_param p']) with (repr_param p') in H
        by reflexivity.
      apply repr_param_inj in H as [_ H].
      rewrite append_assoc, append_cons in H. discriminate H.
    + rewrite !join_comma_cons2, !append_assoc in H.
      apply repr_param_inj in H as [-> H]. apply append_inv_head in H.
      destruct (IH (y' :: ps') H) as [-> ->]. split; reflexivity.
Qed.

(** The [repr] of an operation determines the operation. *)
Lemma repr_future_function_inj (fn fn' : future_function.t) :
  repr_future_function fn = repr_future_function fn' -> fn = fn'.
Proof.
  unfold repr_future_function, repr_list. rewrite !append_assoc. intros H.
  apply append_inv_head, repr_str_inj in H. destruct H as [R H].
  apply append_inv_head, repr_str_inj in H. destruct H as [N H].
  do 2 apply append_inv_head in H.
  change ("]" +:+ ")") with (String "]" ")") in H.
  apply repr_params_inj in H as [P _].
  destruct fn, fn'; simpl in *; subst. reflexivity.
Qed.

(** X10: the text of the error identifies what it reports. Two errors with
    the same message quote the same kind and come from the same operation
    descriptor, whatever characters the names hold. *)
Theorem message_identifies_kind_and_operation
    (p p' : param.t) (fn fn' : future_function.t) :
  bad_type_message p fn = bad_type_message p' fn' ->
  param.type_name p = param.type_name p' /\ fn = fn'.
Proof.
  intros H. destruct (message_fixes_kind _ _ _ _ H) as [K R].
  split; [exact K | exact (repr_future_function_inj _ _ R)].
Qed.

Lemma message_identifies_kind_and_operation_witness :
  param.type_name (param.mk "frobnicator_ptr" "msg") =
  param.type_name (param.mk "frobnicator_ptr" "other") /\
  ping_frobnicator = ping_frobnicator.
Proof.
  apply (message_identifies_kind_and_operation
           (param.mk "frobnicator_ptr" "msg")
           (param.mk "frobnicator_ptr" "other")
           ping_frobnicator ping_frobnicator).
  reflexivity.
Defined.

(** ** The validation loop and the world; running the script again *)

(** The validation loops neither read nor change the world. *)
Lemma check_params_world (fn : future_function.t) (ps : list param.t)
    (g : globals.t) :
  exists r g', forall w,
    for_each ps (check_param fn) (Machine g w) = (r, Machine g' w).
Proof.
  revert g. induction ps as [|q ps IH]; intros g.
  - exists (Return tt), g. reflexivity.
  - destruct (unregistered (globals.type_list g) q) eqn:E.
    + eexists _, _. intros w. rewrite for_each_cons, check_param_step, E.
      reflexivity.
    + destruct (IH (bind_p (Some q) g)) as (r & g' & H).
      exists r, g'. intros w. rewrite for_each_cons, check_param_step, E.
      apply H.
Qed.

Lemma check_functions_world (fns : list future_function.t) (g : globals.t) :
  exists r g', forall w,
    for_each fns check_function (Machine g w) = (r, Machine g' w).
Proof.
  revert g. induction fns as [|fn fns IH]; intros g.
  - exists (Return tt), g. reflexivity.
  - destruct (check_params_world fn (future_function.params fn)
                (bind_fn (Some fn) g)) as ([[]|e] & g1 & H1).
    + destruct (IH g1) as (r & g' & H). exists r, g'. intros w.
      rewrite for_each_cons, check_function_step, H1. apply H.
    + exists (Raise e), g1. intros w.
      rewrite for_each_cons, check_function_step, H1. reflexivity.
Qed.

Section Rerun.

Variable file__ : string.
Variables dirname basename normpath : string -> string.
Variable render : string -> globals.t -> option string.

Abbreviation run := (main file__ dirname basename normpath render).
Abbreviation check := (validate file__ dirname normpath).
Abbreviation tpl n :=
  (joinpath (joinpath (dirname file__) "future_function_templates")
     (n +:+ ".template")).
Abbreviation out n :=
  (joinpath (normpath (joinpath (dirname file__) "../tests/mock_server")) n).
Abbreviation entering tl fns w :=
  (bind_files files
     (bind_header_comment (header_comment file__ basename)
        (m_globals (snd (check tl fns w))))).
Abbreviation seen tl fns w n t := (rendering_globals (entering tl fns w) n t).

Lemma validate_world tl fns (w w' : world) :
  fst (check tl fns w') = fst (check tl fns w) /\
  m_globals (snd (check tl fns w')) = m_globals (snd (check tl fns w)) /\
  m_world (snd (check tl fns w)) = w.
Proof.
  unfold validate, validation, bind, get_globals, boot. simpl.
  destruct (check_functions_world fns (module_bindings file__ dirname normpath tl fns))
    as (r & g' & H).
  rewrite !H. repeat split.
Qed.

(** X11: the validation loop has no effect outside the script's globals and
    takes nothing from outside: it leaves standard output and every file as
    they were, and its result does not depend on them. *)
Theorem validation_ignores_the_world
    (tl : list typedef.t) (fns : list future_function.t) (w w' : world) :
  m_world (snd (check tl fns w)) = w /\
  fst (check tl fns w') = fst (check tl fns w).
Proof.
  destruct (validate_world tl fns w w') as (R & _ & W). split; assumption.
Qed.

(** A run that succeeds in full, with what it leaves in every file. *)
Lemma full_emission tl fns w :
  fst (check tl fns w) = Return tt ->
  (forall n n', In n files -> In n' files -> tpl n <> out n') ->
  (forall n, In n files ->
     exists t text, fs w !! tpl n = Some t /\
                    render t (seen tl fns w n t) = Some text) ->
  (forall n, In n files -> writable w (out n) = true) ->
  fst (run tl fns w) = Return tt /\
  writable (m_world (snd (run tl fns w))) = writable w /\
  (forall n t, In n files -> fs w !! tpl n = Some t ->
     fs (m_world (snd (run tl fns w))) !! out n =
     render t (seen tl fns w n t)) /\
  (forall path, (forall n, In n files -> out n <> path) ->
     fs (m_world (snd (run tl fns w))) !! path = fs w !! path).
Proof.
  intros R Sep Tpl Wr.
  destruct (entering_paths file__ dirname basename normpath tl fns w) as [TP OP].
  rewrite (main_emission _ _ _ _ render _ _ _ R).
  destruct (emit_files_success render (entering tl fns w) files
              (Machine (entering tl fns w) w))
    as (m' & E & _ & _ & Wr' & W & U).
  - apply same_base_refl.
  - exact files_nodup.
  - apply output_paths_distinct.
  - intros a b Ha Hb. rewrite TP, OP. now apply Sep.
  - intros a Ha. simpl. rewrite TP. now apply Tpl.
  - intros a Ha. simpl. rewrite OP. now apply Wr.
  - rewrite E. simpl. split; [reflexivity|]. split; [exact Wr'|]. split.
    + intros n t Hn Ht. rewrite <- OP. apply W; [exact Hn|].
      simpl. now rewrite TP.
    + intros path Hp. apply U. intros n Hn. rewrite OP. now apply Hp.
Qed.

(** A run that returned passed validation, found and rendered every
    template and could open every output file. *)
Lemma returned_run tl fns w :
  (forall n n', In n files -> In n' files -> tpl n <> out n') ->
  fst (run tl fns w) = Return tt ->
  fst (check tl fns w) = Return tt /\
  (forall n, In n files ->
     exists t text, fs w !! tpl n = Some t /\
                    render t (seen tl fns w n t) = Some text) /\
  (forall n, In n files -> writable w (out n) = true).
Proof.
  intros Sep Ret.
  assert (R : fst (check tl fns w) = Return tt).
  { rewrite main_after_validate in Ret.
    destruct (validate file__ dirname normpath tl fns w) as [[[]|e] m'];
      [reflexivity | discriminate Ret]. }
  destruct (entering_paths file__ dirname basename normpath tl fns w) as [TP OP].
  rewrite (main_emission _ _ _ _ render _ _ _ R) in Ret.
  destruct (for_each files (emit_file render) (Machine (entering tl fns w) w))
    as [[[]|e] m'] eqn:E; [|discriminate Ret].
  assert (All : forall n, In n files ->
            writable w (out n) = true /\
            exists t text, fs w !! tpl n = Some t /\
                           render t (seen tl fns w n t) = Some text).
  { intros n Hn.
    assert (Sep' : forall a b, In a files -> In b files ->
              template_path (entering tl fns w) a <>
              output_path (entering tl fns w) b).
    { intros a b Ha Hb. rewrite TP, OP. now apply Sep. }
    destruct (emit_files_returned render (entering tl fns w) files
                (Machine (entering tl fns w) w) m'
                (same_base_refl _) Sep' E n Hn) as (Wn & t & text & Ht & Hr).
    simpl in Wn, Ht. rewrite OP in Wn. rewrite TP in Ht.
    split; [exact Wn|]. now exists t, text. }
  split; [exact R|]. split; intros n Hn; now destruct (All n Hn).
Qed.

(** X12: generating again changes nothing. After a run that returned, with
    no template among the output files, a second run on the files the first
    one left returns too and leaves every file as the first run left it. *)
Theorem second_run_changes_no_file
    (tl : list typedef.t) (fns : list future_function.t) (w : world) :
  fst (run tl fns w) = Return tt ->
  (forall n n', In n files -> In n' files -> tpl n <> out n') ->
  fst (run tl fns (m_world (snd (run tl fns w)))) = Return tt /\
  fs (m_world (snd (run tl fns (m_world (snd (run tl fns w)))))) =
  fs (m_world (snd (run tl fns w))).
Proof.
  intros Ret Sep.
  destruct (returned_run tl fns w Sep Ret) as (R & Tpl & Wr).
  destruct (full_emission tl fns w R Sep Tpl Wr) as (_ & Wr1 & W1 & U1).
  set (w1 := m_world (snd (run tl fns w))) in *.
  destruct (validate_world tl fns w w1) as (R1 & G1 & _).
  assert (Keep : forall n, In n files -> fs w1 !! tpl n = fs w !! tpl n).
  { intros n Hn. apply U1. intros a Ha E. now apply (Sep n a). }
  destruct (full_emission tl fns w1) as (R2 & _ & W2 & U2).
  - now rewrite R1.
  - exact Sep.
  - intros n Hn. rewrite (Keep n Hn), G1. now apply Tpl.
  - intros n Hn. rewrite Wr1. now apply Wr.
  - split; [exact R2|]. apply map_eq. intros path.
    destruct (in_dec string_dec path (map (fun n => out n) files)) as [I|N].
    + apply in_map_iff in I as (n & <- & Hn).
      destruct (Tpl n Hn) as (t & text & Ht & _).
      rewrite (W2 n t Hn); [|now rewrite (Keep n Hn)].
      rewrite G1. symmetry. now apply W1.
    + apply U2. intros n Hn E. apply N, in_map_iff. exists n. now split.
Qed.

End Rerun.

Lemma second_run_changes_no_file_witness :
  let w1 := m_world (snd (sample_main typedef_list future_functions sample_world)) in
  fst (sample_main typedef_list future_functions w1) = Return tt /\
  fs (m_world (snd (sample_main typedef_list future_functions w1))) = fs w1.
Proof.
  unfold sample_main.
  apply (second_run_changes_no_file
           sample_file sample_dirname sample_basename sample_normpath
           sample_render typedef_list future_functions sample_world).
  - vm_compute. reflexivity.
  - intros n n' Hn Hn'. each_of Hn ltac:(each_of Hn' paths_differ).
Defined.
